(** * whisper_bridge.py: model cache, download progress monitor, lifecycle
      operations and command dispatch.

    A shallow embedding of [src/whisper_bridge.py].  Python integers are [Z],
    file sizes (never negative) are [N], Python floats are idealised as exact
    rationals [Q], dictionaries are association lists in insertion order, the
    filesystem is a finite map from paths to sizes, and everything a function
    does to the outside world is appended to an effect log. *)

From Stdlib Require Import QArith Qround Qminmax Qabs Lqa ZArith List String Ascii Lia Sorted.
From stdpp Require Import base gmap strings list pretty.
Import ListNotations.

Set Warnings "-register-all".

(** ** Python values, exceptions and dictionaries *)

Inductive pyval :=
| PNone
| PBool (b : bool)
| PInt (z : Z)
| PFloat (q : Q)
| PStr (s : string)
| PList (l : list pyval)
| PDict (d : list (string * pyval)).

(** A dict literal, and the OperationResult of every operation. *)
Definition pydict := list (string * pyval).

Inductive exn :=
| KeyError (key : string)
| OSError (msg : string)
| ZeroDivisionError
| StopIteration
| TimeoutExpired
| FileNotFoundError (msg : string)
| OtherError (msg : string)
| KeyboardInterrupt
| SystemExit (code : Z).

(** [except Exception] catches every class but the two that derive from
    [BaseException] directly. *)
Definition is_Exception (e : exn) : bool :=
  match e with
  | KeyboardInterrupt | SystemExit _ => false
  | _ => true
  end.

(** [str(e)] *)
Definition str_exn (e : exn) : string :=
  match e with
  | KeyError k => "'" +:+ k +:+ "'"
  | OSError m | FileNotFoundError m | OtherError m => m
  | ZeroDivisionError => "division by zero"
  | TimeoutExpired => "timed out"
  | StopIteration | KeyboardInterrupt => ""
  | SystemExit c => pretty c
  end.

(** Truth value of an object, as [if x:] tests it. *)
Definition py_truthy (v : pyval) : bool :=
  match v with
  | PNone => false
  | PBool b => b
  | PInt z => negb (z =? 0)%Z
  | PFloat q => negb (Qeq_bool q 0)
  | PStr s => negb (String.eqb s "")
  | PList l => match l with [] => false | _ => true end
  | PDict d => match d with [] => false | _ => true end
  end.

Section Dict.
Context {V : Type}.

(** [k in d] *)
Definition dict_contains (d : list (string * V)) (k : string) : bool :=
  existsb (fun kv => String.eqb (fst kv) k) d.

(** [d.get(k)] ([d[k]] when the key is known to be present) *)
Fixpoint dict_get (d : list (string * V)) (k : string) : option V :=
  match d with
  | [] => None
  | (k', v) :: d' => if String.eqb k' k then Some v else dict_get d' k
  end.

(** [next(iter(d))]: the first key in insertion order; [None] stands for
    [StopIteration] on an empty dict. *)
Definition dict_first_key (d : list (string * V)) : option string :=
  match d with
  | [] => None
  | (k, _) :: _ => Some k
  end.

(** [del d[k]] *)
Fixpoint dict_del (d : list (string * V)) (k : string) : list (string * V) :=
  match d with
  | [] => []
  | (k', v) :: d' => if String.eqb k' k then d' else (k', v) :: dict_del d' k
  end.

(** [d[k] = v]: an existing key keeps its place, a new key goes last. *)
Fixpoint dict_set (d : list (string * V)) (k : string) (v : V) : list (string * V) :=
  match d with
  | [] => [(k, v)]
  | (k', v') :: d' =>
      if String.eqb k' k then (k, v) :: d' else (k', v') :: dict_set d' k v
  end.

Definition dict_keys (d : list (string * V)) : list string := map fst d.
End Dict.

(** ** Numbers *)

(** [round(x)] for a float: to the nearest integer, ties to the even one. *)
Definition round_half_even (x : Q) : Z :=
  let f := Qfloor x in
  match (x - inject_Z f ?= 0.5)%Q with
  | Lt => f
  | Gt => (f + 1)%Z
  | Eq => if Z.even f then f else (f + 1)%Z
  end.

Definition pow10 (ndigits : nat) : positive := Nat.iter ndigits (Pos.mul 10) 1%positive.

(** [round(x, ndigits)] *)
Definition py_round (x : Q) (ndigits : nat) : Q :=
  Qmake (round_half_even (x * inject_Z (Zpos (pow10 ndigits)))) (pow10 ndigits).

(** [min(a, b)]: the first of the smallest arguments. *)
Definition py_min (a b : Q) : Q := if Qlt_le_dec b a then b else a.

(** [a / b] on two ints; [None] is [ZeroDivisionError]. *)
Definition py_truediv (a b : Z) : option Q :=
  if (b =? 0)%Z then None else Some (inject_Z a / inject_Z b)%Q.

(** [sum(l)] on floats *)
Definition py_sum (l : list Q) : Q := fold_left Qplus l 0%Q.

(** ** ModelCache: [_model_cache] and [load_model] *)

Section ModelCache.
Context {Model : Type}.

(** [_model_cache = {}]: identifier to loaded model, in insertion order. *)
Definition model_cache := list (string * Model).

(** [load_model(model_name)].  [whisper_load_model] is how the call
    [whisper.load_model(model_name)] would end; the result is the new cache
    and either the returned object ([None] is Python's [None]) or the
    exception that leaves the function. *)
Definition load_model (model_name : string) (whisper_load_model : Model + exn)
    (_model_cache : model_cache) : model_cache * (option Model + exn) :=
  if dict_contains _model_cache model_name then
    (_model_cache, inl (dict_get _model_cache model_name))
  else
    match whisper_load_model with
    | inl model =>
        if (2 <=? length _model_cache)%nat then
          match dict_first_key _model_cache with
          | Some oldest_key =>
              (dict_set (dict_del _model_cache oldest_key) model_name model,
               inl (Some model))
          | None => (_model_cache, inl None)
          end
        else (dict_set _model_cache model_name model, inl (Some model))
    | inr e =>
        if is_Exception e then (_model_cache, inl None) else (_model_cache, inr e)
    end.

(** A sequence of [load_model] calls in one process, each with the way its
    loader call would end. *)
Fixpoint acquire_all (calls : list (string * (Model + exn)))
    (_model_cache : model_cache) : model_cache :=
  match calls with
  | [] => _model_cache
  | (model_name, outcome) :: rest =>
      acquire_all rest (fst (load_model model_name outcome _model_cache))
  end.
End ModelCache.

Arguments model_cache : clear implicits.

(** ** DownloadProgressMonitor: [monitor_download_progress] *)

(** The two kinds of line written to standard error as [PROGRESS:{...}]. *)
Inductive event :=
| Progress (model : string) (downloaded_bytes total_bytes : Z)
    (percentage : Q) (speed_mbps : Q)
| Complete (model : string) (downloaded_bytes total_bytes : Z) (percentage : Z).

Definition is_progress (ev : event) : bool :=
  match ev with Progress _ _ _ _ _ => true | Complete _ _ _ _ => false end.

Definition event_percentage (ev : event) : Q :=
  match ev with
  | Progress _ _ _ p _ => p
  | Complete _ _ _ p => inject_Z p
  end.

Definition event_speed (ev : event) : Q :=
  match ev with
  | Progress _ _ _ _ s => s
  | Complete _ _ _ _ => 0
  end.

Definition event_bytes (ev : event) : Z :=
  match ev with
  | Progress _ b _ _ _ => b
  | Complete _ b _ _ => b
  end.

(** What one poll of the model file finds: [os.path.exists] is false, or
    [os.path.getsize] gives a size, or the file access raises. *)
Inductive stat :=
| Absent
| Size (n : N)
| StatError (msg : string).

(** One pass of the monitor loop as the outside world shapes it: what the
    file looks like, and how much later than scheduled the clock is read
    (the thread was sleeping for 0.5 s before every pass but the first). *)
Record tick := { observed : stat; lag : Q }.

(** The local variables of [monitor_download_progress]. *)
Record monitor_state := {
  last_size : Z;
  last_update_time : Q;
  speed_samples : list Q;
  last_progress_update : Q
}.

Definition Qltb (x y : Q) : bool := negb (Qle_bool y x).

(** [min((current_size / expected_size * 100) if expected_size > 0 else 0, 100)];
    [None] is a [ZeroDivisionError]. *)
Definition percentage_of (current_size expected_size : Z) : option Q :=
  match
    (if (0 <? expected_size)%Z
     then option_map (fun q => q * 100)%Q (py_truediv current_size expected_size)
     else Some 0%Q)
  with
  | Some x => Some (py_min x 100)
  | None => None
  end.

(** The rolling average of lines 147-157: the new window and the smoothed
    speed of this pass. *)
Definition update_speed (st : monitor_state) (current_size : Z) (time_diff : Q)
    : list Q * Q :=
  if (0 <? last_size st)%Z && Qltb 0 time_diff && (last_size st <? current_size)%Z then
    let bytes_per_second := (inject_Z (current_size - last_size st) / time_diff)%Q in
    let speed_mbps := ((bytes_per_second * 8) / (1024 * 1024))%Q in
    let appended := speed_samples st ++ [speed_mbps] in
    let samples := if (10 <? length appended)%nat then tl appended else appended in
    (samples, (py_sum samples / inject_Z (Z.of_nat (length samples)))%Q)
  else (speed_samples st, 0%Q).

(** The condition of the [if] on lines 163-164. *)
Definition throttle_open (st : monitor_state) (current_time percentage : Q) : bool :=
  Qltb 0.5 (current_time - last_progress_update st)
  || Qltb 1.0 (Qabs (percentage - last_progress_update st)).

(** How a pass through the body of the [while] ends. *)
Inductive pass_end :=
| Raised      (* an exception, swallowed by [except Exception: pass] *)
| Continue    (* the end of the [try] block *)
| Break.      (* one of the two [break]s *)

(** The body of the [try] (lines 140-186) on one sample: the variables after
    it, the event printed, and how the pass ends. *)
Definition loop_body (model_name : string) (expected_size : Z)
    (st : monitor_state) (observed : stat) (current_time : Q)
    : monitor_state * option event * pass_end :=
  match observed with
  | StatError _ => (st, None, Raised)
  | _ =>
      let current_size := match observed with Size n => Z.of_N n | _ => 0%Z end in
      let time_diff := (current_time - last_update_time st)%Q in
      let '(samples, speed_mbps) := update_speed st current_size time_diff in
      match percentage_of current_size expected_size with
      | None =>
          ({| last_size := last_size st; last_update_time := last_update_time st;
              speed_samples := samples;
              last_progress_update := last_progress_update st |}, None, Raised)
      | Some percentage =>
          let emit := throttle_open st current_time percentage in
          let ev :=
            if emit then
              Some (Progress model_name current_size expected_size
                      (py_round percentage 1)
                      (if Qltb 0 speed_mbps then py_round speed_mbps 2 else 0%Q))
            else None in
          let shown := if emit then percentage else last_progress_update st in
          if Qle_bool (inject_Z expected_size * 0.95) (inject_Z current_size) then
            ({| last_size := last_size st; last_update_time := last_update_time st;
                speed_samples := samples; last_progress_update := shown |}, ev, Break)
          else if (current_size =? last_size st)%Z
                  && Qltb 10 (current_time - last_update_time st)
                  && Qltb (inject_Z expected_size * 0.9) (inject_Z current_size) then
            ({| last_size := last_size st; last_update_time := last_update_time st;
                speed_samples := samples; last_progress_update := shown |}, ev, Break)
          else
            ({| last_size := current_size; last_update_time := current_time;
                speed_samples := samples; last_progress_update := shown |}, ev, Continue)
      end
  end.

(** How the [while] loop is left. *)
Inductive loop_exit :=
| Cancelled   (* [stop_event.is_set()] at the top of the loop *)
| Finished.   (* a [break] *)

(** The [while not stop_event.is_set()] loop.  The monitor gets to run one
    pass per element of [ticks] before it finds the stop event set; [now] is
    the clock at the top of the loop, and [time.sleep(0.5)] ends every pass
    that does not break.  Each event comes with the clock reading of the
    pass that printed it. *)
Fixpoint monitor_loop (model_name : string) (expected_size : Z)
    (st : monitor_state) (now : Q) (ticks : list tick)
    : list (Q * event) * monitor_state * loop_exit :=
  match ticks with
  | [] => ([], st, Cancelled)
  | tk :: rest =>
      let current_time := (now + lag tk)%Q in
      let '(st', ev, how) := loop_body model_name expected_size st (observed tk) current_time in
      let printed := match ev with Some ev => [(current_time, ev)] | None => [] end in
      match how with
      | Break => (printed, st', Finished)
      | _ =>
          let '(evs, st'', ex) :=
            monitor_loop model_name expected_size st' (current_time + 0.5)%Q rest in
          (printed ++ evs, st'', ex)
      end
  end.

(** Lines 133-136. *)
Definition initial_state (t0 : Q) : monitor_state :=
  {| last_size := 0; last_update_time := t0; speed_samples := [];
     last_progress_update := 0 |}.

(** How the monitor thread ends. *)
Inductive thread_end :=
| Died (e : exn)
| Left (ex : loop_exit).

(** [monitor_download_progress(model_name, expected_size, stop_event)],
    started at clock [t0]. *)
Definition monitor_download_progress (whisper_MODELS : list (string * string))
    (model_name : string) (expected_size : Z) (t0 : Q) (ticks : list tick)
    : list (Q * event) * thread_end :=
  match dict_get whisper_MODELS model_name with
  | None => ([], Died (KeyError model_name))
  | Some _ =>
      let '(evs, _, ex) :=
        monitor_loop model_name expected_size (initial_state t0) t0 ticks in
      (evs, Left ex)
  end.

(** ** The process, its state and its surroundings *)

(** Everything the process does that the outside can see, in order. *)
Inductive effect :=
| Stdout (line : pyval)            (* [print(json.dumps(result))], [print(text)] *)
| Stderr (ev : event)              (* [print(f"PROGRESS:{json.dumps(ev)}", file=sys.stderr)] *)
| StderrText (line : string)
| HeadRequest (url : string)       (* [requests.head(model_url, timeout=10)] *)
| ThreadStart (model_name : string) (expected_size : Z)
| WhisperLoadModel (model_name : string)
| StopEventSet                     (* [stop_event.set()] *)
| ThreadJoin (timeout : Q)         (* [progress_thread.join(timeout=1)] *)
| OsRemove (path : string)
| ModelTranscribe (audio_path : string) (options : pydict)
| SubprocessRun (argv : list string).

Inductive mode :=
| ModeTranscribe | ModeDownload | ModeCheck | ModeList | ModeDelete | ModeCheckFfmpeg.

Inductive format := Json | Text.

(** The namespace [argparse] returns. *)
Record args := {
  arg_mode : mode;
  audio_file : option string;
  model : string;
  language : option string;
  output_format : format
}.

(** [os.path.basename] *)
Fixpoint basename_from (p acc : string) : string :=
  match p with
  | EmptyString => acc
  | String c p' =>
      if Ascii.eqb c "/" then basename_from p' "" else basename_from p' (acc +:+ String c "")
  end.

Definition os_path_basename (p : string) : string := basename_from p "".

(** [os.path.join(a, b)] for a relative [b] *)
Definition os_path_join (a b : string) : string := a +:+ "/" +:+ b.

Definition is_space (c : ascii) : bool :=
  let n := nat_of_ascii c in
  (n =? 32)%nat || ((9 <=? n)%nat && (n <=? 13)%nat) || ((28 <=? n)%nat && (n <=? 31)%nat).

Fixpoint lstrip (l : list ascii) : list ascii :=
  match l with
  | c :: l' => if is_space c then lstrip l' else l
  | [] => []
  end.

(** [s.strip()] *)
Definition py_strip (s : string) : string :=
  string_of_list_ascii (rev (lstrip (rev (lstrip (list_ascii_of_string s))))).

(** [s.split('\n')[0]] *)
Fixpoint first_line (s : string) : string :=
  match s with
  | EmptyString => EmptyString
  | String c s' => if (nat_of_ascii c =? 10)%nat then EmptyString else String c (first_line s')
  end.

(** [round(file_size / (1024 * 1024), 1)] *)
Definition size_mb (file_size : Z) : Q :=
  py_round (inject_Z file_size / inject_Z (1024 * 1024)) 1.

(** The fallback table of [get_expected_model_size]. *)
Definition approximate_sizes : list (string * Z) :=
  [("tiny", 39 * 1024 * 1024); ("base", 74 * 1024 * 1024);
   ("small", 244 * 1024 * 1024); ("medium", 769 * 1024 * 1024);
   ("large", 1550 * 1024 * 1024); ("turbo", 809 * 1024 * 1024)]%Z.

Section Bridge.
Context {Model : Type}.

(** The mutable state: the disk, the module-level [_model_cache], and the
    trace of effects so far. *)
Record world := {
  fs : gmap string N;
  _model_cache : model_cache Model;
  log : list effect
}.

(** What surrounds one run of the script and is not decided by it. *)
Record environment := {
  whisper_MODELS : list (string * string);   (* [whisper._MODELS]: name to URL *)
  home : string;                             (* what [~] expands to *)
  head_content_length : option Z;            (* a usable content-length of the probe *)
  monitor_start : Q;                         (* the clock when the monitor starts *)
  monitor_ticks : list tick;                 (* the passes the monitor gets to run *)
  whisper_load_model : Model + exn;          (* how [whisper.load_model] ends *)
  model_file_after : option N;               (* the model file when that call ends *)
  model_transcribe : pydict + exn;           (* how [model.transcribe] ends *)
  remove_refused : option string;            (* the OS error of [os.remove], if any *)
  ffmpeg_path : option string;               (* [get_ffmpeg_path()] *)
  subprocess_run : (Z * string) + exn        (* return code and stdout of ffmpeg *)
}.

(** State and exceptions. *)
Definition M (A : Type) : Type := world -> world * (A + exn).

Definition ret {A} (a : A) : M A := fun w => (w, inl a).
Definition raise {A} (e : exn) : M A := fun w => (w, inr e).
Definition bind {A B} (m : M A) (k : A -> M B) : M B :=
  fun w => match m w with
           | (w', inl a) => k a w'
           | (w', inr e) => (w', inr e)
           end.

(** [try: body / except ...: handler]; a handler of [None] lets the
    exception pass. *)
Definition try_except {A} (body : M A) (handler : exn -> option (M A)) : M A :=
  fun w => match body w with
           | (w', inl a) => (w', inl a)
           | (w', inr e) =>
               match handler e with
               | Some h => h w'
               | None => (w', inr e)
               end
           end.

Definition emit (e : effect) : M unit :=
  fun w => ({| fs := fs w; _model_cache := _model_cache w; log := log w ++ [e] |}, inl tt).

Definition emit_all (es : list effect) : M unit :=
  fun w => ({| fs := fs w; _model_cache := _model_cache w; log := log w ++ es |}, inl tt).

Definition set_fs (f : gmap string N -> gmap string N) : M unit :=
  fun w => ({| fs := f (fs w); _model_cache := _model_cache w; log := log w |}, inl tt).
End Bridge.

Arguments world : clear implicits.
Arguments environment : clear implicits.
Arguments M : clear implicits.

Declare Scope py_scope.
Delimit Scope py_scope with py.
Notation "x <- m ;; k" := (bind m (fun x => k))
  (at level 100, m at next level, right associativity) : py_scope.
Notation "m ;; k" := (bind m (fun _ => k))
  (at level 100, right associativity) : py_scope.

(** ** The operations *)

Section Operations.
Context {Model : Type}.
Variable env : environment Model.

Local Open Scope py_scope.
Local Open Scope string_scope.

(** [os.path.exists(p)] *)
Definition os_path_exists (p : string) : M Model bool :=
  fun w => (w, inl (match fs w !! p with Some _ => true | None => false end)).

(** [os.path.getsize(p)] *)
Definition os_path_getsize (p : string) : M Model Z :=
  fun w => match fs w !! p with
           | Some n => (w, inl (Z.of_N n))
           | None => (w, inr (FileNotFoundError p))
           end.

(** [os.remove(p)] *)
Definition os_remove (p : string) : M Model unit :=
  fun w => match fs w !! p with
           | None => (w, inr (FileNotFoundError p))
           | Some _ =>
               match remove_refused env with
               | Some msg => (w, inr (OSError msg))
               | None =>
                   ({| fs := delete p (fs w); _model_cache := _model_cache w;
                       log := log w ++ [OsRemove p] |}, inl tt)
               end
           end.

(** [os.path.expanduser("~/.cache/whisper")] *)
Definition cache_dir : string := home env +:+ "/.cache/whisper".

(** The three lines every lifecycle operation starts with:
    [model_url = whisper._MODELS[model_name]] and
    [model_file = os.path.join(cache_dir, os.path.basename(model_url))]. *)
Definition resolve_model_file (model_name : string) : M Model string :=
  match dict_get (whisper_MODELS env) model_name with
  | Some model_url => ret (os_path_join cache_dir (os_path_basename model_url))
  | None => raise (KeyError model_name)
  end.

(** [get_expected_model_size(model_name)]: it never raises. *)
Definition get_expected_model_size (model_name : string) : M Model Z :=
  let fallback := default (100 * 1024 * 1024)%Z (dict_get approximate_sizes model_name) in
  match dict_get (whisper_MODELS env) model_name with
  | Some model_url =>
      emit (HeadRequest model_url) ;;
      ret (default fallback (head_content_length env))
  | None => ret fallback
  end.

(** The blocking [whisper.load_model(model_name)] of [download_model],
    with what the monitor thread prints while it blocks.  The value is
    [progress_thread.is_alive()] on return: the thread is alive unless it
    left its loop by a [break] or died. *)
Definition download_while_monitored (model_name : string) (expected_size : Z)
    (model_file : string) : M Model bool :=
  let '(evs, th) :=
    monitor_download_progress (whisper_MODELS env) model_name expected_size
      (monitor_start env) (monitor_ticks env) in
  emit (WhisperLoadModel model_name) ;;
  emit_all (map (fun te => Stderr (snd te)) evs) ;;
  set_fs (fun f => match model_file_after env with
                   | Some n => <[model_file := n]> f
                   | None => delete model_file f
                   end) ;;
  match whisper_load_model env with
  | inl _ => ret (match th with Left Cancelled => true | _ => false end)
  | inr e => raise e
  end.

Definition downloaded_result (model_name model_file : string) (file_size : Z) : pydict :=
  [("model", PStr model_name); ("downloaded", PBool true); ("path", PStr model_file);
   ("size_bytes", PInt file_size); ("size_mb", PFloat (size_mb file_size));
   ("success", PBool true)].

(** [download_model(model_name)] *)
Definition download_model (model_name : string) : M Model pydict :=
  try_except
    (model_file <- resolve_model_file model_name ;;
     present <- os_path_exists model_file ;;
     if (present : bool) then
       file_size <- os_path_getsize model_file ;;
       ret (downloaded_result model_name model_file file_size)
     else
       expected_size <- get_expected_model_size model_name ;;
       emit (ThreadStart model_name expected_size) ;;
       alive <- download_while_monitored model_name expected_size model_file ;;
       emit StopEventSet ;;
       (if (alive : bool) then emit (ThreadJoin 1) else ret tt) ;;
       present' <- os_path_exists model_file ;;
       final_size <- (if (present' : bool) then os_path_getsize model_file else ret 0%Z) ;;
       emit (Stderr (Complete model_name final_size expected_size 100)) ;;
       ret (downloaded_result model_name model_file final_size))
    (fun e =>
       match e with
       | KeyboardInterrupt =>
           Some (emit StopEventSet ;;
                 ret [("model", PStr model_name); ("downloaded", PBool false);
                      ("error", PStr "Download interrupted by user");
                      ("success", PBool false)])
       | _ =>
           if is_Exception e then
             Some (emit StopEventSet ;;
                   ret [("model", PStr model_name); ("downloaded", PBool false);
                        ("error", PStr (str_exn e)); ("success", PBool false)])
           else None
       end).

(** [check_model_status(model_name)] *)
Definition check_model_status (model_name : string) : M Model pydict :=
  try_except
    (model_file <- resolve_model_file model_name ;;
     present <- os_path_exists model_file ;;
     if (present : bool) then
       file_size <- os_path_getsize model_file ;;
       ret (downloaded_result model_name model_file file_size)
     else
       ret [("model", PStr model_name); ("downloaded", PBool false);
            ("success", PBool true)])
    (fun e =>
       if is_Exception e then
         Some (ret [("model", PStr model_name); ("error", PStr (str_exn e));
                    ("success", PBool false)])
       else None).

(** [for x in l: out.append(f(x))] *)
Fixpoint for_each {A B} (f : A -> M Model B) (l : list A) : M Model (list B) :=
  match l with
  | [] => ret []
  | x :: l' => y <- f x ;; ys <- for_each f l' ;; ret (y :: ys)
  end.

(** [list_models()] *)
Definition list_models : M Model pydict :=
  model_info <- for_each check_model_status
                  ["tiny"; "base"; "small"; "medium"; "large"; "turbo"] ;;
  ret [("models", PList (map PDict model_info)); ("cache_dir", PStr cache_dir);
       ("success", PBool true)].

(** [delete_model(model_name)] *)
Definition delete_model (model_name : string) : M Model pydict :=
  try_except
    (model_file <- resolve_model_file model_name ;;
     present <- os_path_exists model_file ;;
     if (present : bool) then
       file_size <- os_path_getsize model_file ;;
       os_remove model_file ;;
       ret [("model", PStr model_name); ("deleted", PBool true);
            ("freed_bytes", PInt file_size); ("freed_mb", PFloat (size_mb file_size));
            ("success", PBool true)]
     else
       ret [("model", PStr model_name); ("deleted", PBool false);
            ("error", PStr "Model not found"); ("success", PBool false)])
    (fun e =>
       if is_Exception e then
         Some (ret [("model", PStr model_name); ("deleted", PBool false);
                    ("error", PStr (str_exn e)); ("success", PBool false)])
       else None).

(** [load_model(model_name)] on the process's [_model_cache]. *)
Definition load_model_here (model_name : string) : M Model (option Model) :=
  fun w =>
    let '(cache', r) := load_model model_name (whisper_load_model env) (_model_cache w) in
    ({| fs := fs w; _model_cache := cache';
        log := log w ++ (if dict_contains (_model_cache w) model_name then []
                         else [WhisperLoadModel model_name]) |}, r).

(** [model.transcribe(audio_path, **options)] *)
Definition transcribe_call (audio_path : string) (options : pydict) : M Model pydict :=
  emit (ModelTranscribe audio_path options) ;;
  match model_transcribe env with
  | inl result => ret result
  | inr e => raise e
  end.

(** [transcribe_audio(audio_path, model_name, language)] *)
Definition transcribe_audio (audio_path model_name : string) (language : option string)
    : M Model pydict :=
  try_except
    (loaded <- load_model_here model_name ;;
     match loaded with
     | None => ret [("error", PStr "Failed to load Whisper model"); ("success", PBool false)]
     | Some _ =>
         let options :=
           ([("fp16", PBool false); ("verbose", PBool false)]
            ++ match language with
               | Some l => if String.eqb l "" then [] else [("language", PStr l)]
               | None => []
               end)%list in
         result <- transcribe_call audio_path options ;;
         text <- match dict_get result "text" with
                 | Some (PStr t) => ret (py_strip t)
                 | None => ret (py_strip "")
                 | Some _ => raise (OtherError "object has no attribute 'strip'")
                 end ;;
         ret [("text", PStr text);
              ("language", default (PStr "unknown") (dict_get result "language"));
              ("success", PBool true)]
     end)
    (fun e =>
       if is_Exception e then
         Some (ret [("error", PStr (str_exn e)); ("success", PBool false)])
       else None).

(** [check_ffmpeg()] *)
Definition check_ffmpeg : M Model pydict :=
  let program := default "ffmpeg" (ffmpeg_path env) in
  try_except
    (emit (SubprocessRun [program; "-version"]) ;;
     match subprocess_run env with
     | inr e => raise e
     | inl (returncode, out) =>
         if (returncode =? 0)%Z then
           ret [("available", PBool true); ("path", PStr program);
                ("version", PStr (if String.eqb out "" then "Unknown" else first_line out));
                ("success", PBool true)]
         else
           ret [("available", PBool false);
                ("error", PStr ("FFmpeg returned code " +:+ pretty returncode));
                ("success", PBool false)]
     end)
    (fun e =>
       match e with
       | TimeoutExpired =>
           Some (ret [("available", PBool false); ("error", PStr "FFmpeg check timed out");
                      ("success", PBool false)])
       | FileNotFoundError _ =>
           Some (ret [("available", PBool false); ("error", PStr "FFmpeg not found in PATH");
                      ("success", PBool false)])
       | _ =>
           if is_Exception e then
             Some (ret [("available", PBool false); ("error", PStr (str_exn e));
                        ("success", PBool false)])
           else None
       end).

(** [result.get("success")] as a condition *)
Definition succeeded (result : pydict) : bool :=
  py_truthy (default PNone (dict_get result "success")).

(** The value printed for [{result.get(key, fallback)}]. *)
Definition shown (result : pydict) (key fallback : string) : string :=
  match dict_get result key with
  | Some (PStr s) => s
  | Some _ => "<object>"
  | None => fallback
  end.

(** [main()] after [parser.parse_args()]; [sys.exit(n)] raises
    [SystemExit n]. *)
Definition main (a : args) : M Model unit :=
  match arg_mode a with
  | ModeDownload => result <- download_model (model a) ;; emit (Stdout (PDict result))
  | ModeCheck => result <- check_model_status (model a) ;; emit (Stdout (PDict result))
  | ModeList => result <- list_models ;; emit (Stdout (PDict result))
  | ModeDelete => result <- delete_model (model a) ;; emit (Stdout (PDict result))
  | ModeCheckFfmpeg => result <- check_ffmpeg ;; emit (Stdout (PDict result))
  | ModeTranscribe =>
      match audio_file a with
      | None | Some "" =>
          emit (Stdout (PDict [("error", PStr "Audio file required for transcription mode");
                               ("success", PBool false)])) ;;
          raise (SystemExit 1)
      | Some path =>
          present <- os_path_exists path ;;
          if negb present then
            emit (Stdout (PDict [("error", PStr ("Audio file not found: " +:+ path));
                                 ("success", PBool false)])) ;;
            raise (SystemExit 1)
          else
            result <- transcribe_audio path (model a) (language a) ;;
            match output_format a with
            | Json => emit (Stdout (PDict result))
            | Text =>
                if succeeded result then emit (Stdout (PStr (shown result "text" "")))
                else
                  emit (StderrText ("Error: " +:+ shown result "error" "Unknown error")) ;;
                  raise (SystemExit 1)
            end
      end
  end.

(** The exit status of the interpreter: 0 when [main] returns, the code of
    a [SystemExit], 1 after a traceback. *)
Definition exit_code (r : unit + exn) : Z :=
  match r with
  | inl _ => 0
  | inr (SystemExit code) => code
  | inr _ => 1
  end.

(** One invocation of the script. *)
Definition run (a : args) (w : world Model) : world Model * Z :=
  let '(w', r) := main a w in (w', exit_code r).
End Operations.

(** ** FFmpeg discovery: [get_ffmpeg_path] *)

(** What [get_ffmpeg_path] reads from the interpreter and the operating
    system.  [os.path.join] and [os.path.abspath] are the library's, taken
    as they come on the platform. *)
Record host := {
  environ : list (string * string);     (* [os.environ] *)
  sys_frozen : bool;                    (* [getattr(sys, 'frozen', False)] *)
  sys_MEIPASS : string;                 (* [sys._MEIPASS] *)
  script_dir : string;                  (* [os.path.dirname(os.path.abspath(__file__))] *)
  sys_platform : string;                (* [sys.platform] *)
  path_exists : string -> bool;         (* [os.path.exists] *)
  access_X_OK : string -> bool;         (* [os.access(p, os.X_OK)] *)
  path_join : list string -> string;    (* [os.path.join(a, b, ...)] *)
  abspath : string -> string            (* [os.path.abspath] *)
}.

(** [env_paths] (lines 23-27): [None] where the variable is not set. *)
Definition env_paths (h : host) : list (option string) :=
  [dict_get (environ h) "FFMPEG_PATH"; dict_get (environ h) "FFMPEG_EXECUTABLE";
   dict_get (environ h) "FFMPEG_BINARY"].

(** [env_path and os.path.exists(env_path)] *)
Definition env_path_usable (h : host) (env_path : option string) : bool :=
  match env_path with
  | Some p => negb (String.eqb p "") && path_exists h p
  | None => false
  end.

(** The first loop (lines 29-31). *)
Fixpoint first_env_path (h : host) (paths : list (option string)) : option string :=
  match paths with
  | [] => None
  | env_path :: rest =>
      if env_path_usable h env_path then env_path else first_env_path h rest
  end.

(** [base_path] (lines 34-37) *)
Definition base_path (h : host) : string :=
  if sys_frozen h then sys_MEIPASS h else script_dir h.

(** [possible_paths] (lines 40-61) *)
Definition possible_paths (h : host) : list string :=
  let base := base_path h in
  if String.eqb (sys_platform h) "darwin" then
    [path_join h [base; ".."; ".."; ".."; "app.asar.unpacked"; "node_modules";
                  "ffmpeg-static"; "ffmpeg"];
     path_join h [base; ".."; "app.asar.unpacked"; "node_modules"; "ffmpeg-static"; "ffmpeg"];
     path_join h [base; ".."; "node_modules"; "ffmpeg-static"; "ffmpeg"]]
  else if String.eqb (sys_platform h) "win32" then
    [path_join h [base; ".."; ".."; ".."; "app.asar.unpacked"; "node_modules";
                  "ffmpeg-static"; "ffmpeg.exe"];
     path_join h [base; ".."; "app.asar.unpacked"; "node_modules"; "ffmpeg-static";
                  "ffmpeg.exe"];
     path_join h [base; ".."; "node_modules"; "ffmpeg-static"; "ffmpeg.exe"]]
  else
    [path_join h [base; ".."; ".."; ".."; "app.asar.unpacked"; "node_modules";
                  "ffmpeg-static"; "ffmpeg"];
     path_join h [base; ".."; "app.asar.unpacked"; "node_modules"; "ffmpeg-static"; "ffmpeg"];
     path_join h [base; ".."; "node_modules"; "ffmpeg-static"; "ffmpeg"]].

(** The second loop (lines 64-67). *)
Fixpoint first_bundled (h : host) (paths : list string) : option string :=
  match paths with
  | [] => None
  | ffmpeg_path :: rest =>
      let abs_path := abspath h ffmpeg_path in
      if path_exists h abs_path && access_X_OK h abs_path then Some abs_path
      else first_bundled h rest
  end.

(** [get_ffmpeg_path()] *)
Definition get_ffmpeg_path (h : host) : option string :=
  match first_env_path h (env_paths h) with
  | Some env_path => Some env_path
  | None => first_bundled h (possible_paths h)
  end.

(** Lines 72-74: [os.environ] after the module is loaded. *)
Definition environ_after_import (h : host) : list (string * string) :=
  match get_ffmpeg_path h with
  | Some p => if String.eqb p "" then environ h else dict_set (environ h) "FFMPEG_BINARY" p
  | None => environ h
  end.

(** ** Vocabulary of the statements *)

Section Stamps.
Context {Model : Type}.

(** The same calls, with every loaded model tagged by the position of the
    call that loads it: the tag of a cache entry is the time of its
    insertion. *)
Fixpoint stamp (i : nat) (calls : list (string * (Model + exn)))
    : list (string * ((nat * Model) + exn)) :=
  match calls with
  | [] => []
  | (model_name, inl m) :: rest => (model_name, inl (i, m)) :: stamp (S i) rest
  | (model_name, inr e) :: rest => (model_name, inr e) :: stamp (S i) rest
  end.

Definition insertion_times (c : model_cache (nat * Model)) : list nat :=
  map (fun kv => fst (snd kv)) c.

Definition forget_times (c : model_cache (nat * Model)) : model_cache Model :=
  map (fun kv => (fst kv, snd (snd kv))) c.

Definition stamp_outcome (i : nat) (o : Model + exn) : (nat * Model) + exn :=
  match o with inl m => inl (i, m) | inr e => inr e end.

(** Entries sit in the cache in the order of their insertion, and none is
    younger than the clock [i]. *)
Definition in_insertion_order (i : nat) (c : model_cache (nat * Model)) : Prop :=
  StronglySorted lt (insertion_times c) /\ Forall (fun t => (t < i)%nat) (insertion_times c).
End Stamps.

(** The size a pass works with (line 140-142), when the file access does
    not raise. *)
Definition size_seen (o : stat) : option Z :=
  match o with
  | Absent => Some 0%Z
  | Size n => Some (Z.of_N n)
  | StatError _ => None
  end.

(** The sizes the monitor observes, pass after pass. *)
Fixpoint sizes_seen (ticks : list tick) : list Z :=
  match ticks with
  | [] => []
  | tk :: rest =>
      match size_seen (observed tk) with
      | Some n => n :: sizes_seen rest
      | None => sizes_seen rest
      end
  end.

(** The variables of the monitor after the passes of [ticks]. *)
Definition state_after (model_name : string) (expected_size : Z) (t0 : Q)
    (ticks : list tick) : monitor_state :=
  snd (fst (monitor_loop model_name expected_size (initial_state t0) t0 ticks)).

(** The last [n] elements of a list: a window that drops its oldest
    elements first. *)
Definition keep_last {A} (n : nat) (l : list A) : list A := drop (length l - n) l.

(** The guard of line 149: there is an earlier non-empty sample, the clock
    moved, and the file grew. *)
Definition measurable_growth (st : monitor_state) (current_size : Z) (time_diff : Q) : bool :=
  (0 <? last_size st)%Z && Qltb 0 time_diff && (last_size st <? current_size)%Z.

(** The instantaneous throughput of lines 150-151, in Mbps. *)
Definition instantaneous_mbps (st : monitor_state) (current_size : Z) (time_diff : Q) : Q :=
  ((inject_Z (current_size - last_size st) / time_diff * 8) / (1024 * 1024))%Q.

(** The [progress] and [complete] events of a trace, in order. *)
Definition events_of (l : list effect) : list event :=
  omap (fun e => match e with Stderr ev => Some ev | _ => None end) l.

(** The percentage of line 160 as a total function, and the one an event
    carries. *)
Definition percentage_value (current_size expected_size : Z) : Q :=
  py_min (if (0 <? expected_size)%Z
          then (inject_Z current_size / inject_Z expected_size * 100)%Q
          else 0%Q) 100.

Definition progress_percentage (current_size expected_size : Z) : Q :=
  py_round (percentage_value current_size expected_size) 1.

(** What every line printed by the monitor looks like: a [progress] event
    for one of the sizes seen, with the percentage of that size. *)
Definition event_for (model_name : string) (expected_size : Z) (sizes : list Z)
    (te : Q * event) : Prop :=
  exists current_size speed,
    current_size ∈ sizes
    /\ snd te = Progress model_name current_size expected_size
                  (progress_percentage current_size expected_size) speed.

(** The arithmetic mean of a window (line 157). *)
Definition mean (l : list Q) : Q := (py_sum l / inject_Z (Z.of_nat (length l)))%Q.

(** Two [progress] events printed one after the other, with the clock
    readings of their passes, respect the throttle: at least 0.5 s between
    them, or more than one percentage point. *)
Definition throttled (a b : Q * event) : Prop :=
  (0.5 <= fst b - fst a
   \/ 1.0 < Qabs (event_percentage (snd b) - event_percentage (snd a)))%Q.

(** An exception that [except Exception] catches. *)
Definition is_ordinary (e : exn) : Prop := is_Exception e = true.

(** What the handlers of [download_model] catch. *)
Definition is_caught_by_download (e : exn) : Prop :=
  is_Exception e = true \/ e = KeyboardInterrupt.

(** An outcome of an external call that is a value or an ordinary
    exception (a subclass of [Exception]). *)
Definition ordinary {A} (o : A + exn) : Prop :=
  match o with
  | inl _ => True
  | inr e => is_Exception e = true
  end.

(** No external call of the run ends in [KeyboardInterrupt] or [SystemExit]. *)
Definition ordinary_environment {Model} (env : environment Model) : Prop :=
  ordinary (whisper_load_model env) /\ ordinary (model_transcribe env)
  /\ ordinary (subprocess_run env).

(** The audio file of a transcription that passes the two checks of [main]:
    the argument is given and the file exists. *)
Definition usable_audio {Model} (a : args) (w : world Model) : option string :=
  match audio_file a with
  | Some path =>
      if String.eqb path "" then None
      else match fs w !! path with Some _ => Some path | None => None end
  | None => None
  end.

(** A computation that always returns a value. *)
Definition returns {Model A} (m : M Model A) : Prop :=
  forall w, exists w' a, m w = (w', inl a).

(** A computation whose exceptions all satisfy [P]. *)
Definition raises_only {Model A} (P : exn -> Prop) (m : M Model A) : Prop :=
  forall w w' e, m w = (w', inr e) -> P e.

(** *** A small configuration for the examples *)

Definition example_MODELS : list (string * string) :=
  [("tiny", "https://models.example/whisper/tiny.pt");
   ("base", "https://models.example/whisper/base.pt");
   ("small", "https://models.example/whisper/small.pt");
   ("medium", "https://models.example/whisper/medium.pt");
   ("large", "https://models.example/whisper/large-v3.pt");
   ("turbo", "https://models.example/whisper/large-v3-turbo.pt")].

(** Models are numbered; the loader and the passes of the monitor vary. *)
Definition example_env (load : nat + exn) (ticks : list tick) : environment nat :=
  {| whisper_MODELS := example_MODELS;
     home := "/home/user";
     head_content_length := Some 1000%Z;
     monitor_start := 1700000000;
     monitor_ticks := ticks;
     whisper_load_model := load;
     model_file_after := Some 1000%N;
     model_transcribe := inl [("text", PStr " hello "); ("language", PStr "en")];
     remove_refused := None;
     ffmpeg_path := None;
     subprocess_run := inl (0%Z, "ffmpeg version 6.0") |}.

Definition example_world (files : list (string * N)) : world nat :=
  {| fs := list_to_map files; _model_cache := []; log := [] |}.

Definition poll (n : N) : tick := {| observed := Size n; lag := 0 |}.

(** The same host with another [os.environ]. *)
Definition with_environ (h : host) (e : list (string * string)) : host :=
  {| environ := e; sys_frozen := sys_frozen h; sys_MEIPASS := sys_MEIPASS h;
     script_dir := script_dir h; sys_platform := sys_platform h;
     path_exists := path_exists h; access_X_OK := access_X_OK h;
     path_join := path_join h; abspath := abspath h |}.

(** The same host on another platform. *)
Definition with_platform (h : host) (platform : string) : host :=
  {| environ := environ h; sys_frozen := sys_frozen h; sys_MEIPASS := sys_MEIPASS h;
     script_dir := script_dir h; sys_platform := platform;
     path_exists := path_exists h; access_X_OK := access_X_OK h;
     path_join := path_join h; abspath := abspath h |}.

(** A host for the examples: paths joined with [/], already absolute, and a
    disk described by two lists. *)
Definition example_host (vars : list (string * string)) (platform : string)
    (files executables : list string) : host :=
  {| environ := vars; sys_frozen := false; sys_MEIPASS := "";
     script_dir := "/app/src"; sys_platform := platform;
     path_exists := fun p => existsb (String.eqb p) files;
     access_X_OK := fun p => existsb (String.eqb p) executables;
     path_join := fun parts => String.concat "/" parts;
     abspath := fun p => p |}.

(** The same environment with another state of the model file after the
    loader call. *)
Definition with_file_after {Model} (env : environment Model) (after : option N)
    : environment Model :=
  {| whisper_MODELS := whisper_MODELS env; home := home env;
     head_content_length := head_content_length env;
     monitor_start := monitor_start env; monitor_ticks := monitor_ticks env;
     whisper_load_model := whisper_load_model env; model_file_after := after;
     model_transcribe := model_transcribe env; remove_refused := remove_refused env;
     ffmpeg_path := ffmpeg_path env; subprocess_run := subprocess_run env |}.

(** The identifiers [list_models] goes through, in its order. *)
Definition enumerated_models : list string :=
  ["tiny"; "base"; "small"; "medium"; "large"; "turbo"].

(** What [check_model_status] reports for an identifier in a world. *)
Definition model_status {Model} (env : environment Model) (w : world Model)
    (model_name : string) : pydict :=
  match snd (check_model_status env model_name w) with
  | inl result => result
  | inr _ => []
  end.

(** The [options] of [transcribe_audio] (lines 363-368). *)
Definition transcribe_options (language : option string) : pydict :=
  [("fp16", PBool false); ("verbose", PBool false)]
  ++ match language with
     | Some l => if String.eqb l "" then [] else [("language", PStr l)]
     | None => []
     end.

(** The file an identifier resolves to, when it is a key of
    [whisper._MODELS]. *)
Definition model_file_of {Model} (env : environment Model) (model_name : string)
    : option string :=
  match dict_get (whisper_MODELS env) model_name with
  | Some model_url => Some (os_path_join (cache_dir env) (os_path_basename model_url))
  | None => None
  end.

(** The effects that are lines of output proper: a line on standard output,
    or a line of text on standard error ([progress] events apart). *)
Definition is_print (e : effect) : bool :=
  match e with
  | Stdout _ | StderrText _ => true
  | _ => false
  end.

(** The trace grows, by effects that print nothing. *)
Definition quietly {Model} (w w' : world Model) : Prop :=
  exists d, log w' = log w ++ d /\ forallb (fun e => negb (is_print e)) d = true.

(** The disk is what it was. *)
Definition same_disk {Model} (w w' : world Model) : Prop := fs w' = fs w.

(** Every run of [m] takes a world to one related to it by [R], however
    it ends. *)
Definition transition {Model A} (R : world Model -> world Model -> Prop)
    (m : M Model A) : Prop :=
  forall w w' r, m w = (w', r) -> R w w'.

(** Every value [m] returns satisfies [P]. *)
Definition yields {Model A} (P : A -> Prop) (m : M Model A) : Prop :=
  forall w w' a, m w = (w', inl a) -> P a.

(** An OperationResult with its boolean [success]. *)
Definition has_success_flag (result : pydict) : Prop :=
  exists b, dict_get result "success" = Some (PBool b).


(** * Properties *)

(** ** Dictionaries *)

Section DictFacts.
Context {V : Type}.
Implicit Types (d : list (string * V)) (k : string).

Lemma dict_set_fresh d k v :
  dict_contains d k = false -> dict_set d k v = d ++ [(k, v)].
Proof.
  induction d as [|[k' v'] d IH]; simpl; [reflexivity|].
  destruct (String.eqb k' k); simpl; [discriminate|].
  intros H. by rewrite IH.
Qed.

Lemma dict_del_first d k : dict_first_key d = Some k -> dict_del d k = tl d.
Proof.
  destruct d as [|[k' v'] d]; simpl; [discriminate|].
  intros [= ->]. by rewrite String.eqb_refl.
Qed.

Lemma dict_contains_tl d k : dict_contains d k = false -> dict_contains (tl d) k = false.
Proof.
  destruct d as [|[k' v'] d]; simpl; [done|].
  by intros [_ ?]%orb_false_iff.
Qed.

Lemma dict_first_key_full d : (2 <= length d)%nat -> is_Some (dict_first_key d).
Proof. destruct d as [|[k v] d]; simpl; [lia|eauto]. Qed.
End DictFacts.

Section DictMap.
Context {V W : Type} (f : V -> W).
Implicit Types (d : list (string * V)) (k : string).

Let relabel d : list (string * W) := map (fun kv => (fst kv, f (snd kv))) d.

Lemma dict_contains_relabel d k : dict_contains (relabel d) k = dict_contains d k.
Proof. induction d as [|[k' v'] d IH]; simpl; [done|]. by rewrite IH. Qed.

Lemma dict_first_key_relabel d : dict_first_key (relabel d) = dict_first_key d.
Proof. by destruct d as [|[k' v'] d]. Qed.

Lemma dict_del_relabel d k : dict_del (relabel d) k = relabel (dict_del d k).
Proof.
  induction d as [|[k' v'] d IH]; simpl; [done|].
  destruct (String.eqb k' k); simpl; [done|]. by rewrite IH.
Qed.

Lemma dict_set_relabel d k v : dict_set (relabel d) k (f v) = relabel (dict_set d k v).
Proof.
  induction d as [|[k' v'] d IH]; simpl; [done|].
  destruct (String.eqb k' k); simpl; [done|]. by rewrite IH.
Qed.
End DictMap.

(** ** ModelCache *)

Section CacheFacts.
Context {Model : Type}.
Implicit Types (c : model_cache Model) (o : Model + exn).

Lemma load_model_hit name o c :
  dict_contains c name = true -> load_model name o c = (c, inl (dict_get c name)).
Proof. unfold load_model. by intros ->. Qed.

Lemma load_model_miss_loaded name m c :
  dict_contains c name = false ->
  load_model name (inl m) c =
    ((if (2 <=? length c)%nat then tl c else c) ++ [(name, m)], inl (Some m)).
Proof.
  intros Hmiss. unfold load_model. rewrite Hmiss.
  destruct (2 <=? length c)%nat eqn:Hfull.
  - apply Nat.leb_le in Hfull.
    destruct (dict_first_key_full c Hfull) as [k Hk]. rewrite Hk.
    rewrite (dict_del_first _ _ Hk).
    by rewrite dict_set_fresh by by apply dict_contains_tl.
  - by rewrite dict_set_fresh.
Qed.

Lemma load_model_miss_failed name e c :
  dict_contains c name = false ->
  load_model name (inr e) c = (c, if is_Exception e then inl None else inr e).
Proof. intros Hmiss. unfold load_model. rewrite Hmiss. by destruct (is_Exception e). Qed.

Lemma load_model_bounded name o c :
  (length c <= 2)%nat -> (length (fst (load_model name o c)) <= 2)%nat.
Proof.
  intros Hc. destruct (dict_contains c name) eqn:Hin.
  - by rewrite load_model_hit.
  - destruct o as [m|e].
    + rewrite load_model_miss_loaded by done. cbn [fst]. rewrite length_app. cbn [length].
      destruct (2 <=? length c)%nat eqn:Hfull.
      * apply Nat.leb_le in Hfull. destruct c as [|x [|y [|z c]]]; simpl in *; lia.
      * apply Nat.leb_gt in Hfull. lia.
    + by rewrite load_model_miss_failed.
Qed.

Lemma acquire_all_bounded calls c :
  (length c <= 2)%nat -> (length (acquire_all calls c) <= 2)%nat.
Proof.
  revert c. induction calls as [|[name o] calls IH]; intros c Hc; simpl; [done|].
  apply IH, load_model_bounded, Hc.
Qed.
End CacheFacts.

Section StampFacts.
Context {Model : Type}.
Implicit Types (c : model_cache (nat * Model)) (o : Model + exn)
  (calls : list (string * (Model + exn))).

Lemma stamp_cons i name o calls :
  stamp i ((name, o) :: calls) = (name, stamp_outcome i o) :: stamp (S i) calls.
Proof. by destruct o. Qed.

Lemma load_model_forget i name o c :
  forget_times (fst (load_model name (stamp_outcome i o) c))
  = fst (load_model name o (forget_times c)).
Proof.
  unfold load_model, forget_times.
  rewrite (dict_contains_relabel snd), (dict_first_key_relabel snd), length_map.
  destruct (dict_contains c name); [reflexivity|].
  destruct o as [m|e]; cbn [stamp_outcome].
  - destruct (2 <=? length c)%nat.
    + destruct (dict_first_key c) as [k|]; cbn [fst]; [|reflexivity].
      by rewrite (dict_del_relabel snd), <- (dict_set_relabel snd _ _ (i, m)).
    + cbn [fst]. by rewrite <- (dict_set_relabel snd _ _ (i, m)).
  - by destruct (is_Exception e).
Qed.

Lemma acquire_all_forget i calls c :
  forget_times (acquire_all (stamp i calls) c) = acquire_all calls (forget_times c).
Proof.
  revert i c. induction calls as [|[name o] calls IH]; intros i c; [done|].
  rewrite stamp_cons. simpl. by rewrite IH, load_model_forget.
Qed.

Lemma in_insertion_order_tl i c : in_insertion_order i c -> in_insertion_order i (tl c).
Proof.
  destruct c as [|x c]; [done|]. unfold in_insertion_order. simpl.
  intros [Hs Hb]. inversion Hs; subst. inversion Hb; subst. done.
Qed.

Lemma StronglySorted_lt_snoc (ts : list nat) (i : nat) :
  StronglySorted lt ts -> Forall (fun t => (t < i)%nat) ts -> StronglySorted lt (ts ++ [i]).
Proof.
  induction 1 as [|t ts Hts IH Hlt]; intros Hb; simpl.
  - repeat constructor.
  - inversion Hb; subst. constructor; [by apply IH|].
    apply Forall_app. split; [done|]. by repeat constructor.
Qed.

Lemma in_insertion_order_snoc i c name m :
  in_insertion_order i c -> in_insertion_order (S i) (c ++ [(name, (i, m))]).
Proof.
  unfold in_insertion_order, insertion_times. rewrite map_app. simpl.
  intros [Hs Hb]. split.
  - by apply StronglySorted_lt_snoc.
  - apply Forall_app. split; [|repeat constructor].
    eapply Forall_impl; [exact Hb|]. simpl. lia.
Qed.

Lemma in_insertion_order_later i c : in_insertion_order i c -> in_insertion_order (S i) c.
Proof.
  intros [Hs Hb]. split; [done|]. eapply Forall_impl; [exact Hb|]. simpl. lia.
Qed.

Lemma load_model_in_order i name o c :
  in_insertion_order i c ->
  in_insertion_order (S i) (fst (load_model name (stamp_outcome i o) c)).
Proof.
  intros Hc. destruct (dict_contains c name) eqn:Hin.
  - rewrite load_model_hit by done. by apply in_insertion_order_later.
  - destruct o as [m|e]; cbn [stamp_outcome].
    + rewrite load_model_miss_loaded by done. cbn [fst].
      apply in_insertion_order_snoc.
      destruct (2 <=? length c)%nat; [by apply in_insertion_order_tl|done].
    + rewrite load_model_miss_failed by done. by apply in_insertion_order_later.
Qed.

Lemma acquire_all_in_order i calls c :
  in_insertion_order i c ->
  in_insertion_order (i + length calls) (acquire_all (stamp i calls) c).
Proof.
  revert i c. induction calls as [|[name o] calls IH]; intros i c Hc.
  - simpl. by rewrite Nat.add_0_r.
  - rewrite stamp_cons. simpl.
    replace (i + S (length calls))%nat with (S i + length calls)%nat by lia.
    apply IH, load_model_in_order, Hc.
Qed.
End StampFacts.

(** C4.  Whatever [load_model] calls a process has made (with whatever
    outcomes of the loader), the cache holds at most 2 entries, before and
    after one more call.  Its entries are stored in the order of their
    insertion: tagging every loaded model with the position of its call
    gives the same cache with strictly increasing tags, so the first entry
    is the one inserted earliest.  A hit returns the cached model and leaves
    the cache, order included, as it is.  A miss whose load succeeds appends
    the new entry, after dropping exactly the first entry when the cache
    held 2. *)
Theorem model_cache_bounded_fifo {Model : Type}
    (calls : list (string * (Model + exn))) (model_name : string) (outcome : Model + exn) :
  let cache := acquire_all calls [] in
  let timed := acquire_all (stamp 0 calls) [] in
  let after := load_model model_name outcome cache in
  (length cache <= 2)%nat /\ (length (fst after) <= 2)%nat
  /\ forget_times timed = cache
  /\ StronglySorted lt (insertion_times timed)
  /\ (dict_contains cache model_name = true ->
        after = (cache, inl (dict_get cache model_name)))
  /\ (forall m, dict_contains cache model_name = false -> outcome = inl m ->
        after = ((if (2 <=? length cache)%nat then tl cache else cache)
                   ++ [(model_name, m)], inl (Some m))).
Proof.
  intros cache timed after.
  assert (Hlen : (length cache <= 2)%nat) by (apply acquire_all_bounded; simpl; lia).
  split; [done|]. split; [by apply load_model_bounded|].
  split; [apply (acquire_all_forget 0 calls [])|].
  split.
  - apply (acquire_all_in_order 0 calls []). split; constructor.
  - split.
    + apply load_model_hit.
    + intros m Hmiss ->. by apply load_model_miss_loaded.
Qed.

(** C10.  When the model is not cached and the loader raises, [load_model]
    swallows the exception, returns [None] and leaves the cache exactly as
    it was: nothing inserted, nothing evicted. *)
Theorem load_model_loader_raises {Model : Type}
    (model_name : string) (e : exn) (cache : model_cache Model) :
  dict_contains cache model_name = false ->
  is_Exception e = true ->
  load_model model_name (inr e) cache = (cache, inl None).
Proof. intros Hmiss He. rewrite load_model_miss_failed by done. by rewrite He. Qed.

(** ** Numbers *)

Section NumberFacts.
Local Open Scope Q_scope.

Lemma Qltb_lt x y : Qltb x y = true <-> x < y.
Proof.
  unfold Qltb. rewrite negb_true_iff. split.
  - intros H. apply Qnot_le_lt. intros Hle. apply Qle_bool_iff in Hle. congruence.
  - intros H. destruct (Qle_bool y x) eqn:E; [|done].
    apply Qle_bool_iff in E. lra.
Qed.


Lemma round_half_even_range x :
  (Qfloor x <= round_half_even x <= Qfloor x + 1)%Z.
Proof.
  unfold round_half_even.
  destruct (x - inject_Z (Qfloor x) ?= 0.5); [destruct (Z.even (Qfloor x))|..]; lia.
Qed.

Lemma round_half_even_mono x y : x <= y -> (round_half_even x <= round_half_even y)%Z.
Proof.
  intros Hxy. pose proof (Qfloor_resp_le _ _ Hxy) as Hf.
  destruct (Z.eq_dec (Qfloor x) (Qfloor y)) as [E|NE].
  - unfold round_half_even. rewrite <- E.
    destruct (Qcompare_spec (x - inject_Z (Qfloor x)) 0.5);
      destruct (Qcompare_spec (y - inject_Z (Qfloor x)) 0.5);
      try destruct (Z.even (Qfloor x)); try lia; lra.
  - pose proof (round_half_even_range x). pose proof (round_half_even_range y). lia.
Qed.

Lemma round_half_even_Z z : round_half_even (inject_Z z) = z.
Proof.
  unfold round_half_even. rewrite Qfloor_Z.
  destruct (Qcompare_spec (inject_Z z - inject_Z z) 0.5); try lra. done.
Qed.

Lemma pow10_pos n : 0 <= inject_Z (Zpos (pow10 n)).
Proof. unfold Qle. simpl. lia. Qed.

Lemma py_round_mono x y n : x <= y -> py_round x n <= py_round y n.
Proof.
  intros Hxy. unfold py_round, Qle. cbn [Qnum Qden].
  apply Z.mul_le_mono_nonneg_r; [lia|].
  apply round_half_even_mono, Qmult_le_compat_r; [done|apply pow10_pos].
Qed.

Lemma py_round_Z z n : py_round (inject_Z z) n == inject_Z z.
Proof.
  unfold py_round. rewrite <- inject_Z_mult, round_half_even_Z.
  unfold Qeq, inject_Z. cbn [Qnum Qden]. lia.
Qed.

Lemma py_round_between (a b : Z) x n :
  inject_Z a <= x -> x <= inject_Z b -> inject_Z a <= py_round x n <= inject_Z b.
Proof.
  intros Ha Hb. split.
  - rewrite <- (py_round_Z a n). by apply py_round_mono.
  - rewrite <- (py_round_Z b n). by apply py_round_mono.
Qed.

Lemma py_min_Qmin a b : py_min a b == Qmin a b.
Proof.
  unfold py_min. destruct (Qlt_le_dec b a) as [H|H].
  - symmetry. apply Q.min_r. lra.
  - symmetry. by apply Q.min_l.
Qed.

Lemma py_min_le_r a b : py_min a b <= b.
Proof. unfold py_min. destruct (Qlt_le_dec b a); lra. Qed.

Lemma py_min_mono a a' b : a <= a' -> py_min a b <= py_min a' b.
Proof. intros H. unfold py_min. destruct (Qlt_le_dec b a), (Qlt_le_dec b a'); lra. Qed.

Lemma py_min_nonneg a b : 0 <= a -> 0 <= b -> 0 <= py_min a b.
Proof. intros Ha Hb. unfold py_min. destruct (Qlt_le_dec b a); lra. Qed.

Lemma inject_Z_nonneg (a : Z) : (0 <= a)%Z -> 0 <= inject_Z a.
Proof. unfold Qle. simpl. lia. Qed.

Lemma ratio_nonneg (a b : Z) : (0 <= a)%Z -> (0 < b)%Z -> 0 <= inject_Z a / inject_Z b * 100.
Proof.
  intros Ha Hb. apply Qmult_le_0_compat; [|lra].
  apply Qmult_le_0_compat; [by apply inject_Z_nonneg|].
  apply Qinv_le_0_compat, inject_Z_nonneg. lia.
Qed.

Lemma ratio_mono (a a' b : Z) :
  (a <= a')%Z -> (0 < b)%Z -> inject_Z a / inject_Z b * 100 <= inject_Z a' / inject_Z b * 100.
Proof.
  intros Ha Hb. apply Qmult_le_compat_r; [|lra].
  apply Qmult_le_compat_r; [by rewrite <- Zle_Qle|].
  apply Qinv_le_0_compat, inject_Z_nonneg. lia.
Qed.
End NumberFacts.

(** ** DownloadProgressMonitor *)

Section MonitorFacts.
Local Open Scope Q_scope.
Variables (model_name : string) (expected_size : Z).
Implicit Types (st : monitor_state) (o : stat) (ticks : list tick) (now t : Q).

Lemma percentage_of_total (current_size : Z) :
  percentage_of current_size expected_size
  = Some (percentage_value current_size expected_size).
Proof.
  unfold percentage_of, percentage_value, py_truediv.
  destruct (0 <? expected_size)%Z eqn:Hpos; [|done].
  apply Z.ltb_lt in Hpos.
  destruct (expected_size =? 0)%Z eqn:Hz; [apply Z.eqb_eq in Hz; lia|done].
Qed.

Lemma percentage_value_range (current_size : Z) :
  (0 <= current_size)%Z -> 0 <= percentage_value current_size expected_size <= 100.
Proof.
  intros Hcs. unfold percentage_value. split; [|apply py_min_le_r].
  apply py_min_nonneg; [|lra].
  destruct (0 <? expected_size)%Z eqn:Hpos; [|lra].
  apply Z.ltb_lt in Hpos. by apply ratio_nonneg.
Qed.

Lemma percentage_value_mono (a b : Z) :
  (a <= b)%Z -> percentage_value a expected_size <= percentage_value b expected_size.
Proof.
  intros Hab. unfold percentage_value. apply py_min_mono.
  destruct (0 <? expected_size)%Z eqn:Hpos; [|lra].
  apply Z.ltb_lt in Hpos. by apply ratio_mono.
Qed.

Lemma progress_percentage_range (current_size : Z) :
  (0 <= current_size)%Z -> 0 <= progress_percentage current_size expected_size <= 100.
Proof.
  intros Hcs. destruct (percentage_value_range _ Hcs).
  by apply (py_round_between 0 100).
Qed.

Lemma progress_percentage_mono (a b : Z) :
  (a <= b)%Z ->
  progress_percentage a expected_size <= progress_percentage b expected_size.
Proof. intros Hab. by apply py_round_mono, percentage_value_mono. Qed.

Lemma size_seen_nonneg o n : size_seen o = Some n -> (0 <= n)%Z.
Proof. destruct o; intros [= <-]; lia. Qed.

(** *** One pass *)

Lemma loop_body_error st msg t :
  loop_body model_name expected_size st (StatError msg) t = (st, None, Raised).
Proof. done. Qed.

(** The pass on a sample, with the percentage computed. *)
Lemma loop_body_sample st o t current_size :
  size_seen o = Some current_size ->
  loop_body model_name expected_size st o t =
    let r := update_speed st current_size (t - last_update_time st) in
    let percentage := percentage_value current_size expected_size in
    let emit := throttle_open st t percentage in
    let ev :=
      if emit then
        Some (Progress model_name current_size expected_size (py_round percentage 1)
                (if Qltb 0 (snd r) then py_round (snd r) 2 else 0))
      else None in
    let shown := if emit then percentage else last_progress_update st in
    if Qle_bool (inject_Z expected_size * 0.95) (inject_Z current_size)
       || ((current_size =? last_size st)%Z
           && Qltb 10 (t - last_update_time st)
           && Qltb (inject_Z expected_size * 0.9) (inject_Z current_size))
    then
      ({| last_size := last_size st; last_update_time := last_update_time st;
          speed_samples := fst r; last_progress_update := shown |}, ev, Break)
    else
      ({| last_size := current_size; last_update_time := t;
          speed_samples := fst r; last_progress_update := shown |}, ev, Continue).
Proof.
  intros Hsz. unfold loop_body.
  assert (match o with Size n => Z.of_N n | _ => 0%Z end = current_size) as ->
    by (destruct o; simpl in Hsz; congruence).
  rewrite percentage_of_total.
  destruct (update_speed st current_size (t - last_update_time st)) as [samples speed].
  cbn [fst snd].
  destruct o; [| |discriminate];
    destruct (Qle_bool (inject_Z expected_size * 0.95) (inject_Z current_size));
    cbn [orb]; try reflexivity;
    destruct ((current_size =? last_size st)%Z && Qltb 10 (t - last_update_time st)
              && Qltb (inject_Z expected_size * 0.9) (inject_Z current_size));
    reflexivity.
Qed.

Lemma loop_body_event st o t st' ev how :
  loop_body model_name expected_size st o t = (st', Some ev, how) ->
  exists current_size speed,
    size_seen o = Some current_size
    /\ ev = Progress model_name current_size expected_size
              (progress_percentage current_size expected_size) speed.
Proof.
  destruct (size_seen o) as [current_size|] eqn:Hsz.
  - rewrite (loop_body_sample _ _ _ _ Hsz). cbv zeta.
    intros H. exists current_size.
    destruct (throttle_open _ _ _); destruct (_ || _); simplify_eq; eauto.
  - destruct o; discriminate.
Qed.

Lemma loop_body_window st o t :
  speed_samples (fst (fst (loop_body model_name expected_size st o t)))
  = match size_seen o with
    | Some current_size => fst (update_speed st current_size (t - last_update_time st))
    | None => speed_samples st
    end.
Proof.
  destruct (size_seen o) as [current_size|] eqn:Hsz.
  - rewrite (loop_body_sample _ _ _ _ Hsz). cbv zeta. by destruct (_ || _).
  - destruct o; try discriminate. by rewrite loop_body_error.
Qed.

Lemma update_speed_window st current_size time_diff :
  (length (speed_samples st) <= 10)%nat ->
  fst (update_speed st current_size time_diff)
  = if measurable_growth st current_size time_diff
    then keep_last 10 (speed_samples st ++ [instantaneous_mbps st current_size time_diff])
    else speed_samples st.
Proof.
  intros Hlen. unfold update_speed, measurable_growth.
  destruct (_ && _ && _); [|done]. cbn [fst]. fold (instantaneous_mbps st current_size time_diff).
  unfold keep_last. rewrite length_app. cbn [length].
  destruct (10 <? _)%nat eqn:Hfull.
  - apply Nat.ltb_lt in Hfull.
    replace (length (speed_samples st) + 1 - 10)%nat with 1%nat by lia.
    by destruct (speed_samples st ++ _).
  - apply Nat.ltb_ge in Hfull.
    by replace (length (speed_samples st) + 1 - 10)%nat with 0%nat by lia.
Qed.

Lemma keep_last_length {A} n (l : list A) : (length (keep_last n l) <= n)%nat.
Proof. unfold keep_last. rewrite length_drop. lia. Qed.

Lemma loop_body_window_bounded st o t :
  (length (speed_samples st) <= 10)%nat ->
  (length (speed_samples (fst (fst (loop_body model_name expected_size st o t)))) <= 10)%nat.
Proof.
  intros Hlen. rewrite loop_body_window. destruct (size_seen o); [|done].
  rewrite update_speed_window by done.
  destruct (measurable_growth _ _ _); [apply keep_last_length|done].
Qed.

(** *** The loop *)

Lemma monitor_loop_cons st now tk rest :
  monitor_loop model_name expected_size st now (tk :: rest) =
    let t := now + lag tk in
    let r := loop_body model_name expected_size st (observed tk) t in
    let printed := match snd (fst r) with Some ev => [(t, ev)] | None => [] end in
    match snd r with
    | Break => (printed, fst (fst r), Finished)
    | _ =>
        let r' := monitor_loop model_name expected_size (fst (fst r)) (t + 0.5) rest in
        (printed ++ fst (fst r'), snd (fst r'), snd r')
    end.
Proof.
  cbn [monitor_loop]. cbv zeta.
  destruct (loop_body _ _ _ _ _) as [[st' ev] how]. cbn [fst snd].
  destruct how; try reflexivity;
    destruct (monitor_loop _ _ _ _ _) as [[evs st''] ex]; reflexivity.
Qed.

Lemma event_for_later n sizes te :
  event_for model_name expected_size sizes te ->
  event_for model_name expected_size (n :: sizes) te.
Proof. intros (cs & sp & Hin & Hev). exists cs, sp. split; [by right|done]. Qed.

Lemma sizes_seen_cons tk rest :
  sizes_seen (tk :: rest)
  = match size_seen (observed tk) with
    | Some n => n :: sizes_seen rest
    | None => sizes_seen rest
    end.
Proof. done. Qed.

Lemma monitor_loop_events ticks : forall st now,
  Forall (event_for model_name expected_size (sizes_seen ticks))
    (fst (fst (monitor_loop model_name expected_size st now ticks))).
Proof.
  induction ticks as [|tk rest IH]; intros st now; [constructor|].
  rewrite monitor_loop_cons. cbv zeta.
  destruct (loop_body _ _ _ _ _) as [[st' ev] how] eqn:E. cbn [fst snd].
  assert (Hrest : Forall (event_for model_name expected_size (sizes_seen (tk :: rest)))
            (fst (fst (monitor_loop model_name expected_size st' (now + lag tk + 0.5) rest)))).
  { eapply Forall_impl; [apply IH|]. intros te Hte. rewrite sizes_seen_cons.
    destruct (size_seen (observed tk)); [by apply event_for_later|done]. }
  assert (Hhere : Forall (event_for model_name expected_size (sizes_seen (tk :: rest)))
            (match ev with Some ev => [(now + lag tk, ev)] | None => [] end)).
  { destruct ev as [ev|]; [|constructor].
    apply loop_body_event in E as (cs & sp & Hsz & ->).
    constructor; [|constructor]. exists cs, sp.
    rewrite sizes_seen_cons, Hsz. split; [by left|done]. }
  destruct how; cbn [fst]; try done; by apply Forall_app.
Qed.

Lemma monitor_loop_window ticks : forall st now,
  (length (speed_samples st) <= 10)%nat ->
  (length (speed_samples (snd (fst (monitor_loop model_name expected_size st now ticks))))
   <= 10)%nat.
Proof.
  induction ticks as [|tk rest IH]; intros st now Hlen; [done|].
  rewrite monitor_loop_cons. cbv zeta.
  pose proof (loop_body_window_bounded st (observed tk) (now + lag tk) Hlen) as Hb.
  destruct (loop_body _ _ _ _ _) as [[st' ev] how]. cbn [fst snd] in *.
  destruct how; cbn [fst snd]; try done; by apply IH.
Qed.

Lemma monitor_loop_times ticks : forall st now,
  Forall (fun tk => 0 <= lag tk) ticks ->
  Forall (fun te => now <= fst te)
    (fst (fst (monitor_loop model_name expected_size st now ticks))).
Proof.
  induction ticks as [|tk rest IH]; intros st now Hlag; [constructor|].
  inversion Hlag as [|? ? Htk Hrest]; subst.
  rewrite monitor_loop_cons. cbv zeta.
  destruct (loop_body _ _ _ _ _) as [[st' ev] how]. cbn [fst snd].
  assert (Hlater : Forall (fun te => now <= fst te)
            (fst (fst (monitor_loop model_name expected_size st' (now + lag tk + 0.5) rest)))).
  { eapply Forall_impl; [by apply IH|]. cbn beta. intros te Hte. lra. }
  assert (Hhere : Forall (fun te : Q * event => now <= fst te)
            (match ev with Some ev => [(now + lag tk, ev)] | None => [] end)).
  { destruct ev; repeat constructor. cbn [fst]. lra. }
  destruct how; cbn [fst]; try done; by apply Forall_app.
Qed.

Lemma monitor_loop_throttled ticks : forall st now,
  Forall (fun tk => 0 <= lag tk) ticks ->
  Sorted throttled (fst (fst (monitor_loop model_name expected_size st now ticks))).
Proof.
  induction ticks as [|tk rest IH]; intros st now Hlag; [constructor|].
  inversion Hlag as [|? ? Htk Hrest]; subst.
  rewrite monitor_loop_cons. cbv zeta.
  destruct (loop_body _ _ _ _ _) as [[st' ev] how]. cbn [fst snd].
  pose proof (IH st' (now + lag tk + 0.5) Hrest) as Hsorted.
  pose proof (monitor_loop_times rest st' (now + lag tk + 0.5) Hrest) as Htimes.
  destruct (fst (fst (monitor_loop model_name expected_size st' (now + lag tk + 0.5) rest)))
    as [|te evs].
  - destruct how, ev; cbn [fst app]; repeat constructor.
  - assert (HdRel throttled (now + lag tk, default (snd te) ev) (te :: evs)) as Hhd.
    { constructor. left. inversion Htimes; subst. cbn [fst]. lra. }
    destruct how, ev; cbn [fst app default] in *;
      first [ done | by constructor | repeat constructor ].
Qed.

Lemma monitor_loop_monotone ticks : forall st now,
  StronglySorted Z.le (sizes_seen ticks) ->
  StronglySorted Qle
    (map (fun te => event_percentage (snd te))
       (fst (fst (monitor_loop model_name expected_size st now ticks)))).
Proof.
  induction ticks as [|tk rest IH]; intros st now Hsorted; [constructor|].
  rewrite monitor_loop_cons. cbv zeta.
  pose proof (monitor_loop_events rest) as Hev.
  destruct (loop_body _ _ _ _ _) as [[st' ev] how] eqn:E. cbn [fst snd].
  specialize (Hev st' (now + lag tk + 0.5)).
  rewrite sizes_seen_cons in Hsorted.
  assert (Hrest : StronglySorted Z.le (sizes_seen rest)).
  { destruct (size_seen (observed tk)); [by inversion Hsorted|done]. }
  specialize (IH st' (now + lag tk + 0.5) Hrest).
  destruct ev as [ev|].
  - apply loop_body_event in E as (cs & sp & Hsz & ->).
    rewrite Hsz in Hsorted. apply StronglySorted_inv in Hsorted as [_ Hle].
    destruct how; cbn [fst app map snd event_percentage];
      try (repeat constructor; fail);
      (constructor; [done|]);
      apply Forall_map; (eapply Forall_impl; [exact Hev|]);
      intros te (cs' & sp' & Hin & ->); cbn [event_percentage];
      apply progress_percentage_mono;
      rewrite Forall_forall in Hle; by apply Hle.
  - destruct how; cbn [fst app map]; try done; constructor.
Qed.
End MonitorFacts.

Lemma Sorted_consecutive {A} (R : A -> A -> Prop) (l : list A) (i : nat) (a b : A) :
  Sorted R l -> l !! i = Some a -> l !! S i = Some b -> R a b.
Proof.
  intros Hs. revert i. induction Hs as [|x l Hl IH Hhd]; intros i Ha Hb; [done|].
  destruct i as [|i]; cbn in Ha, Hb.
  - injection Ha as ->. destruct Hhd as [|y l' Hxy]; [done|].
    cbn in Hb. by injection Hb as ->.
  - by apply (IH i).
Qed.

Lemma sizes_seen_nonneg (ticks : list tick) : Forall (fun n => (0 <= n)%Z) (sizes_seen ticks).
Proof.
  induction ticks as [|tk rest IH]; [constructor|].
  rewrite sizes_seen_cons. destruct (size_seen (observed tk)) as [n|] eqn:Hsz; [|done].
  constructor; [by eapply size_seen_nonneg|done].
Qed.

(** C1.  With the clock read no earlier than scheduled on every pass (each
    pass but the first follows a [time.sleep(0.5)]), any two [progress]
    events the monitor prints one after the other are at least 0.5 s apart
    or differ by more than one percentage point. *)
Theorem progress_events_throttled (model_name : string) (expected_size : Z)
    (st : monitor_state) (now : Q) (ticks : list tick) (i : nat) (a b : Q * event) :
  Forall (fun tk => 0 <= lag tk)%Q ticks ->
  fst (fst (monitor_loop model_name expected_size st now ticks)) !! i = Some a ->
  fst (fst (monitor_loop model_name expected_size st now ticks)) !! S i = Some b ->
  (0.5 <= fst b - fst a
   \/ 1.0 < Qabs (event_percentage (snd b) - event_percentage (snd a)))%Q.
Proof.
  intros Hlag Ha Hb.
  exact (Sorted_consecutive throttled _ i a b
           (monitor_loop_throttled model_name expected_size ticks st now Hlag) Ha Hb).
Qed.

(** C5.  The percentage of a pass is [min(current_size / expected_size *
    100, 100)] when the expected size is positive and 0 otherwise, and its
    computation never divides by zero; every event the monitor prints
    carries a percentage between 0 and 100; and when the sizes seen never
    decrease, neither do the percentages printed. *)
Theorem progress_percentage_clamped_monotone (model_name : string) (expected_size : Z)
    (st : monitor_state) (now : Q) (ticks : list tick) :
  let evs := fst (fst (monitor_loop model_name expected_size st now ticks)) in
  (forall current_size : Z, exists p : Q,
      percentage_of current_size expected_size = Some p
      /\ ((0 < expected_size)%Z ->
            p == Qmin (inject_Z current_size / inject_Z expected_size * 100) 100)%Q
      /\ ((expected_size <= 0)%Z -> p == 0)%Q)
  /\ Forall (fun te => 0 <= event_percentage (snd te) <= 100)%Q evs
  /\ (Sorted Z.le (sizes_seen ticks) ->
        StronglySorted Qle (map (fun te => event_percentage (snd te)) evs)).
Proof.
  intros evs. split; [|split].
  - intros current_size. exists (percentage_value current_size expected_size).
    split; [apply percentage_of_total|]. unfold percentage_value. split; intros Hes.
    + apply Z.ltb_lt in Hes. rewrite Hes. apply py_min_Qmin.
    + apply Z.ltb_ge in Hes. rewrite Hes. rewrite py_min_Qmin. by apply Q.min_l.
  - pose proof (sizes_seen_nonneg ticks) as Hnn. rewrite Forall_forall in Hnn.
    eapply Forall_impl; [apply monitor_loop_events|].
    intros te (cs & sp & Hin & ->). cbn [event_percentage].
    apply progress_percentage_range. by apply Hnn.
  - intros Hsorted. apply monitor_loop_monotone.
    apply Sorted_StronglySorted; [|done]. intros x y z. apply Z.le_trans.
Qed.

(** C6, as the code has it.  On every pass of the monitor the window holds
    at most 10 samples.  When the file grew since a previous non-empty
    sample and the clock moved, the instantaneous throughput is appended and
    only the last 10 samples are kept; an event printed by that pass carries
    the arithmetic mean of the window, rounded to two decimals.  On any
    other sample (in particular when the file did not grow) the window is
    left as it is and an event printed by that pass carries speed 0.  A
    pass whose file access raises changes nothing and prints nothing. *)
Theorem speed_window_of_a_pass (model_name : string) (expected_size : Z) (t0 : Q)
    (before : list tick) (o : stat) (current_time : Q) :
  let st := state_after model_name expected_size t0 before in
  let r := loop_body model_name expected_size st o current_time in
  let window := speed_samples (fst (fst r)) in
  (length window <= 10)%nat
  /\ match size_seen o with
     | Some current_size =>
         let time_diff := (current_time - last_update_time st)%Q in
         if measurable_growth st current_size time_diff then
           window = keep_last 10 (speed_samples st
                                    ++ [instantaneous_mbps st current_size time_diff])
           /\ forall ev, snd (fst r) = Some ev ->
                event_speed ev
                = if Qltb 0 (mean window) then py_round (mean window) 2 else 0%Q
         else
           window = speed_samples st
           /\ forall ev, snd (fst r) = Some ev -> event_speed ev = 0%Q
     | None => fst (fst r) = st /\ snd (fst r) = None
     end.
Proof.
  intros st r window.
  assert (Hst : (length (speed_samples st) <= 10)%nat).
  { apply monitor_loop_window. simpl. lia. }
  split; [by apply loop_body_window_bounded|].
  destruct (size_seen o) as [current_size|] eqn:Hsz.
  - cbv zeta. subst window r.
    rewrite (loop_body_sample _ _ _ _ _ _ Hsz). cbv zeta.
    pose proof (update_speed_window st current_size (current_time - last_update_time st) Hst)
      as Hwin.
    unfold update_speed in *. fold (measurable_growth st current_size
                                      (current_time - last_update_time st)) in *.
    destruct (measurable_growth _ _ _); cbn [fst snd] in *.
    + split.
      * rewrite <- Hwin. by destruct (_ || _).
      * intros ev. destruct (throttle_open _ _ _), (_ || _); cbn [fst snd];
          intros [= <-]; reflexivity.
    + split.
      * by destruct (_ || _).
      * intros ev. destruct (throttle_open _ _ _), (_ || _); cbn [fst snd];
          intros [= <-]; reflexivity.
  - destruct o; try discriminate. done.
Qed.

(** *** The stall rule *)

Section StallRule.
Local Open Scope Q_scope.
Variables (model_name : string) (expected_size : Z).


End StallRule.

(** C3, on the code.  Expected size 1000 bytes, a file that sits at 920
    bytes (above 0.9 and below 0.95 of the expected size) for 25 polls half a
    second apart: the file has not grown for 12 s, yet the loop takes no
    [break]; it runs every pass, prints an event on each, and is left only
    when the stop event is set. *)
Theorem stalled_download_keeps_polling :
  let ticks := repeat {| observed := Size 920; lag := 0 |} 25 in
  let run := monitor_loop "tiny" 1000 (initial_state 1700000000) 1700000000 ticks in
  snd run = Cancelled
  /\ map (fun te => (Qred (fst te - 1700000000), event_bytes (snd te))) (fst (fst run))
     = map (fun k => (Qred (inject_Z (Z.of_nat k) * 0.5), 920%Z)) (seq 0 25)
  /\ (inject_Z 1000 * 0.9 < inject_Z 920 /\ inject_Z 920 < inject_Z 1000 * 0.95)%Q.
Proof.
  cbv zeta. split; [|split].
  - vm_compute. reflexivity.
  - vm_compute. reflexivity.
  - split; reflexivity.
Qed.

(** ** Returning and raising *)

Section ReturnFacts.
Context {Model : Type}.
Implicit Types (P : exn -> Prop).

Lemma returns_ret {A} (a : A) : returns (Model := Model) (ret a).
Proof. intros w. by exists w, a. Qed.

Lemma returns_bind {A B} (m : M Model A) (k : A -> M Model B) :
  returns m -> (forall a, returns (k a)) -> returns (bind m k).
Proof.
  intros Hm Hk w. destruct (Hm w) as (w1 & a & E1). destruct (Hk a w1) as (w2 & b & E2).
  exists w2, b. unfold bind. by rewrite E1.
Qed.

Lemma returns_emit (e : effect) : returns (Model := Model) (emit e).
Proof. intros w. by eexists _, tt. Qed.

Lemma returns_raises_only {A} P (m : M Model A) : returns m -> raises_only P m.
Proof. intros Hm w w' e E. destruct (Hm w) as (w1 & a & E1). congruence. Qed.

Lemma raises_only_raise {A} P (e : exn) : P e -> raises_only P (raise (A := A) (Model := Model) e).
Proof. intros He w w' e' [= _ <-]. done. Qed.

Lemma raises_only_bind {A B} P (m : M Model A) (k : A -> M Model B) :
  raises_only P m -> (forall a, raises_only P (k a)) -> raises_only P (bind m k).
Proof.
  intros Hm Hk w w' e. unfold bind. destruct (m w) as [w1 [a|e1]] eqn:E1.
  - apply Hk.
  - intros [= <- <-]. by eapply Hm.
Qed.

Lemma try_except_returns {A} P (body : M Model A) (handler : exn -> option (M Model A)) :
  raises_only P body ->
  (forall e, P e -> exists h, handler e = Some h /\ returns h) ->
  returns (try_except body handler).
Proof.
  intros Hbody Hh w. unfold try_except. destruct (body w) as [w1 [a|e]] eqn:E.
  - by exists w1, a.
  - destruct (Hh e (Hbody _ _ _ E)) as (h & -> & Hret). apply Hret.
Qed.

Lemma for_each_returns {A B} (f : A -> M Model B) (l : list A) :
  (forall x, returns (f x)) -> returns (for_each f l).
Proof.
  intros Hf. induction l as [|x l IH]; [apply returns_ret|].
  cbn [for_each]. apply returns_bind; [apply Hf|]. intros y.
  apply returns_bind; [apply IH|]. intros ys. apply returns_ret.
Qed.
End ReturnFacts.

Section OperationFacts.
Context {Model : Type}.
Variable env : environment Model.
Implicit Types (w : world Model).

Lemma os_path_exists_returns p : returns (os_path_exists (Model := Model) p).
Proof. intros w. by eexists _, _. Qed.

Lemma os_path_getsize_ordinary p : raises_only is_ordinary (os_path_getsize (Model := Model) p).
Proof. intros w w' e. unfold os_path_getsize. destruct (fs w !! p); by intros [= <- <-]. Qed.

Lemma os_remove_ordinary p : raises_only is_ordinary (os_remove env p).
Proof.
  intros w w' e. unfold os_remove.
  destruct (fs w !! p); [destruct (remove_refused env)|]; by intros [= <- <-].
Qed.

Lemma resolve_model_file_ordinary name : raises_only is_ordinary (resolve_model_file env name).
Proof.
  unfold resolve_model_file. destruct (dict_get _ _).
  - apply returns_raises_only, returns_ret.
  - by apply raises_only_raise.
Qed.

Lemma get_expected_model_size_returns name : returns (get_expected_model_size env name).
Proof.
  unfold get_expected_model_size. destruct (dict_get (whisper_MODELS env) name).
  - apply returns_bind; [apply returns_emit|]. intros _. apply returns_ret.
  - apply returns_ret.
Qed.

Lemma ordinary_handler {A} (h : exn -> M Model A) :
  (forall e, returns (h e)) ->
  forall e, is_ordinary e ->
    exists m, (if is_Exception e then Some (h e) else None) = Some m /\ returns m.
Proof. intros Hh e He. rewrite He. eauto. Qed.

Lemma check_model_status_returns name : returns (check_model_status env name).
Proof.
  unfold check_model_status. eapply (try_except_returns is_ordinary).
  - apply raises_only_bind; [apply resolve_model_file_ordinary|]. intros model_file.
    apply raises_only_bind; [apply returns_raises_only, os_path_exists_returns|].
    intros [|]; [|apply returns_raises_only, returns_ret].
    apply raises_only_bind; [apply os_path_getsize_ordinary|]. intros n.
    apply returns_raises_only, returns_ret.
  - apply (ordinary_handler (fun e => ret _)). intros e. apply returns_ret.
Qed.

Lemma list_models_returns : returns (list_models env).
Proof.
  unfold list_models. apply returns_bind.
  - apply for_each_returns, check_model_status_returns.
  - intros info. apply returns_ret.
Qed.

Lemma delete_model_returns name : returns (delete_model env name).
Proof.
  unfold delete_model. eapply (try_except_returns is_ordinary).
  - apply raises_only_bind; [apply resolve_model_file_ordinary|]. intros model_file.
    apply raises_only_bind; [apply returns_raises_only, os_path_exists_returns|].
    intros [|]; [|apply returns_raises_only, returns_ret].
    apply raises_only_bind; [apply os_path_getsize_ordinary|]. intros n.
    apply raises_only_bind; [apply os_remove_ordinary|]. intros _.
    apply returns_raises_only, returns_ret.
  - apply (ordinary_handler (fun e => ret _)). intros e. apply returns_ret.
Qed.

Lemma download_while_monitored_caught name expected_size model_file :
  match whisper_load_model env with inr e => is_caught_by_download e | inl _ => True end ->
  raises_only is_caught_by_download
    (download_while_monitored env name expected_size model_file).
Proof.
  intros Hload. unfold download_while_monitored.
  destruct (monitor_download_progress _ _ _ _ _) as [evs th].
  intros w w' e. unfold bind, emit, emit_all, set_fs.
  destruct (whisper_load_model env) as [m|e']; [discriminate|].
  by intros [= _ <-].
Qed.

Lemma raises_only_weaken {A} (P P' : exn -> Prop) (m : M Model A) :
  (forall e, P e -> P' e) -> raises_only P m -> raises_only P' m.
Proof. intros HP Hm w w' e E. eauto. Qed.

Lemma ordinary_is_caught e : is_ordinary e -> is_caught_by_download e.
Proof. by left. Qed.

Lemma download_model_returns name :
  match whisper_load_model env with inr e => is_caught_by_download e | inl _ => True end ->
  returns (download_model env name).
Proof.
  intros Hload. unfold download_model. eapply (try_except_returns is_caught_by_download).
  - apply raises_only_bind;
      [eapply raises_only_weaken; [apply ordinary_is_caught|apply resolve_model_file_ordinary]|].
    intros model_file.
    apply raises_only_bind; [apply returns_raises_only, os_path_exists_returns|].
    intros [|].
    + apply raises_only_bind;
        [eapply raises_only_weaken; [apply ordinary_is_caught|apply os_path_getsize_ordinary]|].
      intros n. apply returns_raises_only, returns_ret.
    + apply raises_only_bind; [apply returns_raises_only, get_expected_model_size_returns|].
      intros expected_size.
      apply raises_only_bind; [apply returns_raises_only, returns_emit|]. intros _.
      apply raises_only_bind; [by apply download_while_monitored_caught|]. intros alive.
      apply raises_only_bind; [apply returns_raises_only, returns_emit|]. intros _.
      apply raises_only_bind.
      { destruct alive; apply returns_raises_only; [apply returns_emit|apply returns_ret]. }
      intros _.
      apply raises_only_bind; [apply returns_raises_only, os_path_exists_returns|].
      intros present.
      apply raises_only_bind.
      { destruct present; [|apply returns_raises_only, returns_ret].
        eapply raises_only_weaken; [apply ordinary_is_caught|apply os_path_getsize_ordinary]. }
      intros final_size.
      apply raises_only_bind; [apply returns_raises_only, returns_emit|]. intros _.
      apply returns_raises_only, returns_ret.
  - intros e [He| ->].
    + destruct e; try discriminate He; cbn [is_Exception];
        (eexists; split; [reflexivity|]);
        (apply returns_bind; [apply returns_emit|intros _; apply returns_ret]).
    + eexists; split; [reflexivity|].
      apply returns_bind; [apply returns_emit|intros _; apply returns_ret].
Qed.

Lemma check_ffmpeg_returns : ordinary (subprocess_run env) -> returns (check_ffmpeg env).
Proof.
  intros Hrun. unfold check_ffmpeg. eapply (try_except_returns is_ordinary).
  - apply raises_only_bind; [apply returns_raises_only, returns_emit|]. intros _.
    destruct (subprocess_run env) as [[returncode out]|e].
    + destruct (returncode =? 0)%Z; apply returns_raises_only, returns_ret.
    + by apply raises_only_raise.
  - intros e He.
    destruct e; try discriminate He; cbn [is_Exception];
      (eexists; split; [reflexivity|]); apply returns_ret.
Qed.

Lemma load_model_here_returns name :
  ordinary (whisper_load_model env) -> returns (load_model_here env name).
Proof.
  intros Hload w. unfold load_model_here, load_model.
  destruct (dict_contains (_model_cache w) name); [by eexists _, _|].
  destruct (whisper_load_model env) as [m|e].
  - destruct (2 <=? length (_model_cache w))%nat; [|by eexists _, _].
    destruct (dict_first_key (_model_cache w)); by eexists _, _.
  - cbn in Hload. rewrite Hload. by eexists _, _.
Qed.

Lemma transcribe_call_ordinary audio_path options :
  ordinary (model_transcribe env) ->
  raises_only is_ordinary (transcribe_call env audio_path options).
Proof.
  intros Hcall. unfold transcribe_call.
  apply raises_only_bind; [apply returns_raises_only, returns_emit|]. intros _.
  destruct (model_transcribe env) as [result|e].
  - apply returns_raises_only, returns_ret.
  - by apply raises_only_raise.
Qed.

Lemma transcribe_audio_returns audio_path name language :
  ordinary (whisper_load_model env) -> ordinary (model_transcribe env) ->
  returns (transcribe_audio env audio_path name language).
Proof.
  intros Hload Hcall. unfold transcribe_audio. eapply (try_except_returns is_ordinary).
  - apply raises_only_bind; [by apply returns_raises_only, load_model_here_returns|].
    intros [m|]; [|apply returns_raises_only, returns_ret].
    apply raises_only_bind; [by apply transcribe_call_ordinary|]. intros result.
    apply raises_only_bind.
    + destruct (dict_get result "text") as [[]|];
        first [ apply returns_raises_only, returns_ret | by apply raises_only_raise ].
    + intros text. apply returns_raises_only, returns_ret.
  - apply (ordinary_handler (fun e => ret _)). intros e. apply returns_ret.
Qed.
End OperationFacts.

(** ** CommandDispatcher *)

Section MainFacts.
Context {Model : Type}.
Variable env : environment Model.
Implicit Types (w : world Model) (a : args).

Lemma run_returns a w : returns (main env a) -> snd (run env a w) = 0%Z.
Proof. intros H. unfold run. destruct (H w) as (w' & [] & ->). done. Qed.

Lemma print_result_returns (op : M Model pydict) :
  returns op -> returns (bind op (fun result => emit (Stdout (PDict result)))).
Proof. intros H. apply returns_bind; [done|]. intros r. apply returns_emit. Qed.

Lemma usable_audio_spec a w path :
  usable_audio a w = Some path ->
  audio_file a = Some path /\ path <> ""%string /\ is_Some (fs w !! path).
Proof.
  unfold usable_audio. destruct (audio_file a) as [p|]; [|done].
  destruct (String.eqb_spec p ""); [done|].
  destruct (fs w !! p) eqn:E; [|done]. intros [= <-]. rewrite E. eauto.
Qed.

Lemma run_without_audio a w :
  arg_mode a = ModeTranscribe -> usable_audio a w = None -> snd (run env a w) = 1%Z.
Proof.
  unfold run, main, usable_audio. intros ->.
  destruct (audio_file a) as [[|c p]|]; [reflexivity| |reflexivity].
  cbn [String.eqb]. unfold bind, os_path_exists.
  destruct (fs w !! String c p); [discriminate|]. reflexivity.
Qed.

Lemma run_with_audio a w path w' result :
  arg_mode a = ModeTranscribe -> usable_audio a w = Some path ->
  transcribe_audio env path (model a) (language a) w = (w', inl result) ->
  snd (run env a w)
  = match output_format a with
    | Json => 0
    | Text => if succeeded result then 0 else 1
    end%Z.
Proof.
  intros Hmode (Hfile & Hne & [n Hn])%usable_audio_spec Hresult.
  unfold run, main. rewrite Hmode, Hfile.
  destruct path as [|c p]; [done|].
  unfold bind at 1. unfold os_path_exists at 1. rewrite Hn. cbn [negb].
  unfold bind at 1. rewrite Hresult.
  destruct (output_format a); [reflexivity|].
  destruct (succeeded result); reflexivity.
Qed.
End MainFacts.

(** C7, as the code has it.  When no external call ends in
    [KeyboardInterrupt] or [SystemExit]: every mode but [transcribe] exits
    with status 0; [transcribe] exits with status 1 when the audio file
    argument is missing or names no file, and otherwise with status 1 only
    in [text] output format when the result's [success] is false — in
    [json] output format it exits with status 0 whatever the result says. *)
Theorem exit_code_of_a_run {Model : Type} (env : environment Model) (a : args)
    (w : world Model) :
  ordinary_environment env ->
  match arg_mode a with
  | ModeTranscribe =>
      match usable_audio a w with
      | None => snd (run env a w) = 1%Z
      | Some path =>
          exists w' result,
            transcribe_audio env path (model a) (language a) w = (w', inl result)
            /\ snd (run env a w)
               = match output_format a with
                 | Json => 0
                 | Text => if succeeded result then 0 else 1
                 end%Z
      end
  | _ => snd (run env a w) = 0%Z
  end.
Proof.
  intros (Hload & Hcall & Hrun).
  destruct (arg_mode a) eqn:Hmode.
  - destruct (usable_audio a w) as [path|] eqn:Haudio.
    + destruct (transcribe_audio_returns env path (model a) (language a) Hload Hcall w)
        as (w' & result & Hresult).
      exists w', result. split; [done|]. by eapply run_with_audio.
    + by apply run_without_audio.
  - apply run_returns. unfold main. rewrite Hmode.
    apply print_result_returns, download_model_returns.
    destruct (whisper_load_model env); [done|by left].
  - apply run_returns. unfold main. rewrite Hmode.
    apply print_result_returns, check_model_status_returns.
  - apply run_returns. unfold main. rewrite Hmode.
    apply print_result_returns, list_models_returns.
  - apply run_returns. unfold main. rewrite Hmode.
    apply print_result_returns, delete_model_returns.
  - apply run_returns. unfold main. rewrite Hmode.
    by apply print_result_returns, check_ffmpeg_returns.
Qed.

(** ** DownloadOrchestrator and LifecycleOperations *)

(** C8.  When the identifier resolves and its file is on disk at the start,
    [download_model] returns the success result with the size of that file
    and leaves the world as it found it: the trace gains nothing, so no
    monitor thread is started, [whisper.load_model] is not called, and no
    event is printed. *)
Theorem download_model_already_present {Model : Type} (env : environment Model)
    (model_name model_url : string) (w : world Model) (n : N) :
  dict_get (whisper_MODELS env) model_name = Some model_url ->
  fs w !! os_path_join (cache_dir env) (os_path_basename model_url) = Some n ->
  let model_file := os_path_join (cache_dir env) (os_path_basename model_url) in
  let result := downloaded_result model_name model_file (Z.of_N n) in
  download_model env model_name w = (w, inl result)
  /\ dict_get result "success" = Some (PBool true)
  /\ dict_get result "size_bytes" = Some (PInt (Z.of_N n)).
Proof.
  intros Hurl Hfile model_file result. split; [|done].
  unfold download_model, try_except, bind, resolve_model_file.
  rewrite Hurl. unfold ret, os_path_exists, os_path_getsize.
  rewrite Hfile. cbv beta iota. by rewrite Hfile.
Qed.

(** C9, as the code has it.  [delete_model] never raises.  When the
    identifier resolves, its file is on disk and the removal is not refused,
    the file is removed and the result reports its former size as
    [freed_bytes].  When the file is absent, the result is the failure
    [{"deleted": False, "error": "Model not found", "success": False}] and
    nothing changes.  An unknown identifier or a refused removal gives a
    failure result with the text of the exception. *)
Theorem delete_model_outcomes {Model : Type} (env : environment Model)
    (model_name : string) (w : world Model) :
  let failure (msg : string) : pydict :=
    [("model", PStr model_name); ("deleted", PBool false); ("error", PStr msg);
     ("success", PBool false)] in
  match dict_get (whisper_MODELS env) model_name with
  | None => delete_model env model_name w = (w, inl (failure (str_exn (KeyError model_name))))
  | Some model_url =>
      let model_file := os_path_join (cache_dir env) (os_path_basename model_url) in
      match fs w !! model_file, remove_refused env with
      | None, _ => delete_model env model_name w = (w, inl (failure "Model not found"))
      | Some n, Some msg => delete_model env model_name w = (w, inl (failure msg))
      | Some n, None =>
          delete_model env model_name w
          = ({| fs := delete model_file (fs w); _model_cache := _model_cache w;
                log := log w ++ [OsRemove model_file] |},
             inl [("model", PStr model_name); ("deleted", PBool true);
                  ("freed_bytes", PInt (Z.of_N n)); ("freed_mb", PFloat (size_mb (Z.of_N n)));
                  ("success", PBool true)])
      end
  end.
Proof.
  intros failure. unfold delete_model, try_except, bind, resolve_model_file.
  destruct (dict_get (whisper_MODELS env) model_name) as [model_url|]; [|reflexivity].
  cbv zeta. unfold ret, os_path_exists, os_path_getsize, os_remove.
  destruct (fs w !! _) as [n|] eqn:Hfile; [|reflexivity].
  cbv beta iota. rewrite Hfile. cbv beta iota. rewrite Hfile.
  destruct (remove_refused env); reflexivity.
Qed.

(** C2, as the code has it.  For a download that does not take the
    already-downloaded short cut, the monitor prints only [progress] events.
    When [whisper.load_model] returns, [download_model] sets the stop event,
    joins the monitor thread for at most 1 s if it is still alive, and then
    prints exactly one [complete] event with percentage 100, the last entry
    of the trace, after every [progress] event.  When the call raises an
    exception or is interrupted, [download_model] sets the stop event and
    returns a failure result: it does not join the thread and prints no
    [complete] event. *)
Theorem download_model_trace {Model : Type} (env : environment Model)
    (model_name model_url : string) (w : world Model) :
  dict_get (whisper_MODELS env) model_name = Some model_url ->
  fs w !! os_path_join (cache_dir env) (os_path_basename model_url) = None ->
  let model_file := os_path_join (cache_dir env) (os_path_basename model_url) in
  let expected_size :=
    default (default (100 * 1024 * 1024)%Z (dict_get approximate_sizes model_name))
      (head_content_length env) in
  let monitor :=
    monitor_download_progress (whisper_MODELS env) model_name expected_size
      (monitor_start env) (monitor_ticks env) in
  let alive := match snd monitor with Left Cancelled => true | _ => false end in
  let started :=
    log w ++ [HeadRequest model_url; ThreadStart model_name expected_size;
              WhisperLoadModel model_name]
          ++ map (fun te => Stderr (snd te)) (fst monitor) in
  let disk :=
    match model_file_after env with
    | Some n => <[model_file := n]> (fs w)
    | None => delete model_file (fs w)
    end in
  let final_size := match model_file_after env with Some n => Z.of_N n | None => 0%Z end in
  Forall (fun te => is_progress (snd te) = true) (fst monitor)
  /\ match whisper_load_model env with
     | inl _ =>
         download_model env model_name w
         = ({| fs := disk; _model_cache := _model_cache w;
               log := started ++ [StopEventSet]
                        ++ (if alive then [ThreadJoin 1] else [])
                        ++ [Stderr (Complete model_name final_size expected_size 100)] |},
            inl (downloaded_result model_name model_file final_size))
     | inr e =>
         is_caught_by_download e ->
         exists msg,
           download_model env model_name w
           = ({| fs := disk; _model_cache := _model_cache w;
                 log := started ++ [StopEventSet] |},
              inl [("model", PStr model_name); ("downloaded", PBool false);
                   ("error", PStr msg); ("success", PBool false)])
     end.
Proof.
  intros Hurl Hfile model_file expected_size monitor alive started disk final_size. split.
  - subst monitor. unfold monitor_download_progress. rewrite Hurl.
    pose proof (monitor_loop_events model_name expected_size (monitor_ticks env)
                  (initial_state (monitor_start env)) (monitor_start env)) as Hev.
    destruct (monitor_loop _ _ _ _ _) as [[evs st] ex]. cbn [fst] in *.
    eapply Forall_impl; [exact Hev|]. by intros te (cs & sp & _ & ->).
  - subst alive started monitor disk final_size.
    unfold download_model, try_except, resolve_model_file. rewrite Hurl.
    unfold get_expected_model_size. rewrite Hurl.
    unfold download_while_monitored. subst expected_size.
    unfold bind, emit, emit_all, set_fs, ret, raise, os_path_exists, os_path_getsize.
    rewrite Hfile. cbv beta iota. cbn [fs log _model_cache fst snd]. fold model_file.
    destruct (monitor_download_progress _ _ _ _ _) as [evs th].
    destruct (whisper_load_model env) as [m|e].
    + destruct (model_file_after env) as [n|]; destruct th as [e|[|]];
        repeat first [ progress cbn [fs log _model_cache fst snd app]
                     | rewrite lookup_insert_eq | rewrite lookup_delete_eq
                     | rewrite <- app_assoc ];
        reflexivity.
    + intros [He| ->].
      * exists (str_exn e).
        destruct e; try discriminate He;
          repeat first [ progress cbn [is_Exception fs log _model_cache fst snd app]
                       | rewrite <- app_assoc ];
          reflexivity.
      * exists "Download interrupted by user"%string.
        repeat first [ progress cbn [fs log _model_cache fst snd app]
                     | rewrite <- app_assoc ].
        reflexivity.
Qed.

(** *** The throttle *)

Section Throttle.
Local Open Scope Q_scope.
Variables (model_name : string) (expected_size : Z).

Lemma percentage_value_le_100 (current_size : Z) :
  percentage_value current_size expected_size <= 100.
Proof. apply py_min_le_r. Qed.

Lemma loop_body_shown (st : monitor_state) (o : stat) (t : Q) :
  last_progress_update st <= 100 ->
  last_progress_update (fst (fst (loop_body model_name expected_size st o t))) <= 100.
Proof.
  intros Hst. destruct (size_seen o) as [current_size|] eqn:Hsz.
  - rewrite (loop_body_sample _ _ _ _ _ _ Hsz). cbv zeta.
    pose proof (percentage_value_le_100 current_size).
    destruct (throttle_open _ _ _), (_ || _); cbn [fst last_progress_update]; done.
  - destruct o; try discriminate. by rewrite loop_body_error.
Qed.

Lemma monitor_loop_shown (ticks : list tick) : forall (st : monitor_state) (now : Q),
  last_progress_update st <= 100 ->
  last_progress_update (snd (fst (monitor_loop model_name expected_size st now ticks)))
  <= 100.
Proof.
  induction ticks as [|tk rest IH]; intros st now Hst; [done|].
  rewrite monitor_loop_cons. cbv zeta.
  pose proof (loop_body_shown st (observed tk) (now + lag tk) Hst) as Hb.
  destruct (loop_body _ _ _ _ _) as [[st' ev] how]. cbn [fst snd] in *.
  destruct how; cbn [fst snd]; try done; by apply IH.
Qed.

(** [last_progress_update] receives the percentage, never the time, of the
    last event; it stays at or below 100, and the first condition of the
    throttle, [current_time - last_progress_update > 0.5], holds on every
    pass whose clock reading is above 100.5, as every reading of
    [time.time()] is: each pass that reads the file prints an event. *)
Theorem throttle_is_always_open (t0 : Q) (before : list tick) (o : stat)
    (current_time : Q) (current_size : Z) :
  size_seen o = Some current_size ->
  100.5 < current_time ->
  exists ev,
    snd (fst (loop_body model_name expected_size
                (state_after model_name expected_size t0 before) o current_time))
    = Some ev.
Proof.
  intros Hsz Ht.
  assert (Hst : last_progress_update (state_after model_name expected_size t0 before) <= 100).
  { apply monitor_loop_shown. cbn. lra. }
  rewrite (loop_body_sample _ _ _ _ _ _ Hsz). cbv zeta.
  assert (throttle_open (state_after model_name expected_size t0 before) current_time
            (percentage_value current_size expected_size) = true) as ->.
  { unfold throttle_open. apply orb_true_iff. left. apply Qltb_lt. lra. }
  destruct (_ || _); cbn [fst snd]; eauto.
Qed.
End Throttle.

(** ** The statements at work *)

(** C4 at work: "a" is loaded first and then hit again before "c" arrives;
    the hit does not protect it, and it is "a" that leaves the cache. *)
Lemma model_cache_thrash :
  let calls : list (string * (nat + exn)) :=
    [("a", inl 1%nat); ("b", inl 2%nat); ("a", inr KeyboardInterrupt)] in
  dict_contains (acquire_all calls []) "c" = false
  /\ load_model "c" (inl 3%nat) (acquire_all calls [])
     = ([("b", 2%nat); ("c", 3%nat)], inl (Some 3%nat)).
Proof.
  intros calls. split; [reflexivity|].
  exact (proj2 (proj2 (proj2 (proj2 (proj2
           (model_cache_bounded_fifo calls "c" (inl 3%nat))))))
           3%nat eq_refl eq_refl).
Defined.

(** C10 at work. *)
Lemma load_model_without_network :
  dict_contains [("base", 7%nat)] "tiny" = false
  /\ is_Exception (OtherError "no network") = true
  /\ load_model "tiny" (inr (OtherError "no network")) [("base", 7%nat)]
     = ([("base", 7%nat)], inl None).
Proof.
  split; [reflexivity|]. split; [reflexivity|].
  exact (load_model_loader_raises "tiny" (OtherError "no network") [("base", 7%nat)]
           eq_refl eq_refl).
Defined.

(** C1 at work: two polls of a growing file. *)
Lemma two_polls_half_a_second_apart :
  let ticks := [poll 100; poll 500] in
  let evs := fst (fst (monitor_loop "tiny" 1000 (initial_state 1700000000)
                         1700000000 ticks)) in
  let a := (1700000000%Q, Progress "tiny" 100 1000 10.0 0) in
  let b := (1700000000.5%Q, Progress "tiny" 500 1000 50.0 0.01) in
  Forall (fun tk => 0 <= lag tk)%Q ticks
  /\ evs !! 0%nat = Some a /\ evs !! 1%nat = Some b
  /\ (0.5 <= fst b - fst a
      \/ 1.0 < Qabs (event_percentage (snd b) - event_percentage (snd a)))%Q.
Proof.
  intros ticks evs a b.
  assert (Hlag : Forall (fun tk => 0 <= lag tk)%Q ticks)
    by (repeat constructor; discriminate).
  assert (Ha : evs !! 0%nat = Some a) by reflexivity.
  assert (Hb : evs !! 1%nat = Some b) by reflexivity.
  split; [exact Hlag|]. split; [exact Ha|]. split; [exact Hb|].
  exact (progress_events_throttled "tiny" 1000 (initial_state 1700000000) 1700000000
           ticks 0 a b Hlag Ha Hb).
Defined.

(** C5 at work: a growing file, and a download that breaks at 96 %. *)
Lemma growing_file_percentages :
  let ticks := [poll 100; poll 500; poll 500; poll 960] in
  Sorted Z.le (sizes_seen ticks)
  /\ StronglySorted Qle
       (map (fun te => event_percentage (snd te))
          (fst (fst (monitor_loop "tiny" 1000 (initial_state 1700000000)
                       1700000000 ticks)))).
Proof.
  intros ticks.
  assert (Hs : Sorted Z.le (sizes_seen ticks))
    by (repeat constructor; discriminate).
  split; [exact Hs|].
  exact (proj2 (proj2 (progress_percentage_clamped_monotone "tiny" 1000
                         (initial_state 1700000000) 1700000000 ticks)) Hs).
Defined.

(** C6 against the code: the file grows between the first two polls and
    stands still at the third; the second event reports 15.26 Mbps, the
    third reports 0, not the speed reported before. *)
Lemma stalled_poll_reports_zero_speed :
  map (fun te => (event_bytes (snd te), Qred (event_speed (snd te))))
    (fst (fst (monitor_loop "tiny" 10000000 (initial_state 1700000000) 1700000000
                 [poll 1000000; poll 2000000; poll 2000000])))
  = [(1000000%Z, 0%Q); (2000000%Z, Qred 15.26); (2000000%Z, 0%Q)]
  /\ Qeq_bool 0 15.26 = false.
Proof. split; vm_compute; reflexivity. Qed.

(** C8 at work. *)
Lemma download_of_a_present_model :
  let env := example_env (inl 7%nat) [poll 100; poll 500] in
  let w := example_world [("/home/user/.cache/whisper/tiny.pt", 77%N)] in
  dict_get (whisper_MODELS env) "tiny" = Some "https://models.example/whisper/tiny.pt"
  /\ fs w !! "/home/user/.cache/whisper/tiny.pt" = Some 77%N
  /\ download_model env "tiny" w
     = (w, inl (downloaded_result "tiny" "/home/user/.cache/whisper/tiny.pt" 77)).
Proof.
  intros env w. split; [reflexivity|]. split; [reflexivity|].
  exact (proj1 (download_model_already_present env "tiny"
                  "https://models.example/whisper/tiny.pt" w 77 eq_refl eq_refl)).
Defined.

(** C2 at work: a download that succeeds while the monitor is polling. *)
Lemma successful_download_trace :
  let env := example_env (inl 7%nat) [poll 100; poll 500] in
  let w := example_world [] in
  dict_get (whisper_MODELS env) "tiny" = Some "https://models.example/whisper/tiny.pt"
  /\ fs w !! "/home/user/.cache/whisper/tiny.pt" = None
  /\ log (fst (download_model env "tiny" w))
     = [HeadRequest "https://models.example/whisper/tiny.pt"; ThreadStart "tiny" 1000;
        WhisperLoadModel "tiny";
        Stderr (Progress "tiny" 100 1000 10.0 0);
        Stderr (Progress "tiny" 500 1000 50.0 0.01);
        StopEventSet; ThreadJoin 1; Stderr (Complete "tiny" 1000 1000 100)].
Proof.
  intros env w. split; [reflexivity|]. split; [reflexivity|].
  pose proof (proj2 (download_model_trace env "tiny"
                       "https://models.example/whisper/tiny.pt" w eq_refl eq_refl)) as H.
  hnf in H. rewrite H. reflexivity.
Defined.

(** C2 against the code: the download call raises; the stop event is set
    and a failure is returned, but the thread is not joined and no
    [complete] event is printed. *)
Lemma failed_download_prints_no_complete :
  download_model (example_env (inr (OtherError "connection reset")) [poll 100; poll 500])
    "tiny" (example_world [])
  = ({| fs := {["/home/user/.cache/whisper/tiny.pt" := 1000%N]}; _model_cache := [];
        log := [HeadRequest "https://models.example/whisper/tiny.pt";
                ThreadStart "tiny" 1000; WhisperLoadModel "tiny";
                Stderr (Progress "tiny" 100 1000 10.0 0);
                Stderr (Progress "tiny" 500 1000 50.0 0.01);
                StopEventSet] |},
     inl [("model", PStr "tiny"); ("downloaded", PBool false);
          ("error", PStr "connection reset"); ("success", PBool false)]).
Proof. vm_compute. reflexivity. Qed.

(** C9 against the code: deleting a model that is not on disk gives a
    failure result. *)
Lemma delete_absent_model_is_a_failure :
  delete_model (example_env (inl 7%nat) []) "tiny" (example_world [])
  = (example_world [],
     inl [("model", PStr "tiny"); ("deleted", PBool false);
          ("error", PStr "Model not found"); ("success", PBool false)]).
Proof. vm_compute. reflexivity. Qed.

(** C7 against the code: [transcribe] in [json] output format with a model
    that fails to load prints a result whose [success] is false and exits
    with status 0. *)
Lemma failed_json_transcription_exits_zero :
  let a := {| arg_mode := ModeTranscribe; audio_file := Some "/tmp/a.wav";
              model := "base"; language := None; output_format := Json |} in
  let r := run (example_env (inr (OtherError "no network")) []) a
             (example_world [("/tmp/a.wav", 5%N)]) in
  log (fst r) = [WhisperLoadModel "base";
                 Stdout (PDict [("error", PStr "Failed to load Whisper model");
                                ("success", PBool false)])]
  /\ snd r = 0%Z.
Proof. split; vm_compute; reflexivity. Qed.

(** C7 at work: the same failure in [text] output format exits with
    status 1. *)
Lemma failed_text_transcription_exits_one :
  let env := example_env (inr (OtherError "no network")) [] in
  let a := {| arg_mode := ModeTranscribe; audio_file := Some "/tmp/a.wav";
              model := "base"; language := None; output_format := Text |} in
  let w := example_world [("/tmp/a.wav", 5%N)] in
  ordinary_environment env /\ snd (run env a w) = 1%Z.
Proof.
  intros env a w.
  assert (Hord : ordinary_environment env) by (repeat split).
  split; [exact Hord|].
  pose proof (exit_code_of_a_run env a w Hord) as H.
  vm_compute in H. destruct H as (w' & result & Hres & Hcode).
  injection Hres as <- <-. vm_compute. exact Hcode.
Defined.

(** The throttle at work: the same size twice; the second pass prints too. *)
Lemma unchanged_size_is_printed_again :
  size_seen (Size 100) = Some 100%Z
  /\ (100.5 < 1700000000.5)%Q
  /\ exists ev,
       snd (fst (loop_body "tiny" 1000
                   (state_after "tiny" 1000 1700000000 [poll 100]) (Size 100)
                   1700000000.5))
       = Some ev.
Proof.
  split; [reflexivity|]. split; [reflexivity|].
  exact (throttle_is_always_open "tiny" 1000 1700000000 [poll 100] (Size 100)
           1700000000.5 100 eq_refl eq_refl).
Defined.


(** * Further properties *)

(** ** FFmpeg discovery *)

Section DictLookup.
Context {V : Type}.
Implicit Types (d : list (string * V)) (k : string).

Lemma dict_get_set_same d k v : dict_get (dict_set d k v) k = Some v.
Proof.
  induction d as [|[k' v'] d IH]; simpl.
  - by rewrite String.eqb_refl.
  - destruct (String.eqb k' k) eqn:E; simpl; [by rewrite String.eqb_refl|by rewrite E].
Qed.

Lemma dict_get_set_other d k k' v : k <> k' -> dict_get (dict_set d k v) k' = dict_get d k'.
Proof.
  intros Hne. induction d as [|[k0 v0] d IH]; simpl.
  - destruct (String.eqb_spec k k'); [done|reflexivity].
  - destruct (String.eqb_spec k0 k) as [->|Hk0]; simpl.
    + destruct (String.eqb_spec k k'); [done|reflexivity].
    + by rewrite IH.
Qed.

Lemma dict_get_snoc_fresh d k v : dict_contains d k = false -> dict_get (d ++ [(k, v)]) k = Some v.
Proof.
  induction d as [|[k' v'] d IH]; simpl.
  - by rewrite String.eqb_refl.
  - destruct (String.eqb k' k); simpl; [discriminate|]. exact IH.
Qed.

End DictLookup.

Section FfmpegFacts.
Implicit Types (h : host) (p : string).

Lemma first_env_path_some h paths p :
  first_env_path h paths = Some p ->
  Some p ∈ paths /\ p <> ""%string /\ path_exists h p = true.
Proof.
  induction paths as [|e rest IH]; simpl; [discriminate|].
  destruct (env_path_usable h e) eqn:E.
  - intros ->. unfold env_path_usable in E. apply andb_true_iff in E as [Hne Hex].
    split; [by left|]. split; [|done].
    destruct (String.eqb_spec p ""); [discriminate|done].
  - intros H. destruct (IH H) as (Hin & Hne & Hex). split; [by right|done].
Qed.

Lemma first_env_path_none h paths :
  first_env_path h paths = None <-> Forall (fun e => env_path_usable h e = false) paths.
Proof.
  induction paths as [|e rest IH]; simpl; [by split; [constructor|]|].
  destruct (env_path_usable h e) eqn:E.
  - split; [by destruct e|]. intros H. inversion H; congruence.
  - rewrite IH. split; [by constructor|]. by inversion 1.
Qed.

Lemma first_bundled_some h paths p :
  first_bundled h paths = Some p ->
  (exists c, c ∈ paths /\ p = abspath h c)
  /\ path_exists h p = true /\ access_X_OK h p = true.
Proof.
  induction paths as [|c rest IH]; simpl; [discriminate|].
  destruct (path_exists h (abspath h c) && access_X_OK h (abspath h c)) eqn:E.
  - intros [= <-]. apply andb_true_iff in E as [Hex Hx].
    split; [exists c; split; [by left|done]|done].
  - intros H. destruct (IH H) as ((c' & Hin & ->) & Hex & Hx).
    split; [exists c'; split; [by right|done]|done].
Qed.

Lemma first_bundled_none h paths :
  first_bundled h paths = None <->
  Forall (fun c => path_exists h (abspath h c) && access_X_OK h (abspath h c) = false) paths.
Proof.
  induction paths as [|c rest IH]; simpl; [by split; [constructor|]|].
  destruct (path_exists h (abspath h c) && access_X_OK h (abspath h c)) eqn:E.
  - split; [discriminate|]. intros H. inversion H; congruence.
  - rewrite IH. split; [by constructor|]. by inversion 1.
Qed.
End FfmpegFacts.

Lemma get_ffmpeg_path_found_aux (h : host) (p : string) :
  get_ffmpeg_path h = Some p -> path_exists h p = true.
Proof.
  unfold get_ffmpeg_path. destruct (first_env_path h (env_paths h)) as [e|] eqn:E.
  - intros [= ->]. by apply first_env_path_some in E as (_ & _ & Hex).
  - intros H. by apply first_bundled_some in H as (_ & Hex & _).
Qed.

Lemma first_env_path_with_environ (h : host) e paths :
  first_env_path (with_environ h e) paths = first_env_path h paths.
Proof. induction paths as [|x rest IH]; simpl; [done|]. by rewrite IH. Qed.

Lemma first_bundled_with_environ (h : host) e paths :
  first_bundled (with_environ h e) paths = first_bundled h paths.
Proof. induction paths as [|x rest IH]; simpl; [done|]. by rewrite IH. Qed.

Lemma get_ffmpeg_path_with_environ (h : host) e :
  get_ffmpeg_path (with_environ h e)
  = match first_env_path h [dict_get e "FFMPEG_PATH"; dict_get e "FFMPEG_EXECUTABLE";
                            dict_get e "FFMPEG_BINARY"] with
    | Some env_path => Some env_path
    | None => first_bundled h (possible_paths h)
    end.
Proof.
  unfold get_ffmpeg_path. by rewrite first_env_path_with_environ, first_bundled_with_environ.
Qed.

(** X3.  Whatever [get_ffmpeg_path] returns exists on disk, and is either
    the non-empty value of one of the three environment variables or the
    absolute path of a bundled candidate that is also executable. *)
Theorem get_ffmpeg_path_found (h : host) (p : string) :
  get_ffmpeg_path h = Some p ->
  path_exists h p = true
  /\ ((Some p ∈ env_paths h /\ p <> ""%string)
      \/ (exists c, c ∈ possible_paths h /\ p = abspath h c /\ access_X_OK h p = true)).
Proof.
  unfold get_ffmpeg_path. destruct (first_env_path h (env_paths h)) as [e|] eqn:E.
  - intros [= ->]. apply first_env_path_some in E as (Hin & Hne & Hex). auto.
  - intros H. apply first_bundled_some in H as ((c & Hin & ->) & Hex & Hx).
    split; [done|]. right. eauto.
Qed.

(** X4.  [get_ffmpeg_path] returns [None] exactly when none of the three
    variables holds a non-empty path that exists and none of the platform's
    three bundled candidates exists and is executable. *)
Theorem get_ffmpeg_path_none (h : host) :
  get_ffmpeg_path h = None <->
  Forall (fun e => env_path_usable h e = false) (env_paths h)
  /\ Forall (fun c => path_exists h (abspath h c) && access_X_OK h (abspath h c) = false)
       (possible_paths h).
Proof.
  unfold get_ffmpeg_path. rewrite <- first_env_path_none, <- first_bundled_none.
  destruct (first_env_path h (env_paths h)); split; try done; by intros [? ?].
Qed.

(** X5.  A non-empty [FFMPEG_PATH] that exists wins over everything else,
    and is returned as it is: it is not made absolute and not checked for
    being executable. *)
Theorem get_ffmpeg_path_prefers_FFMPEG_PATH (h : host) (p : string) :
  dict_get (environ h) "FFMPEG_PATH" = Some p ->
  p <> ""%string ->
  path_exists h p = true ->
  get_ffmpeg_path h = Some p.
Proof.
  intros Hvar Hne Hex. unfold get_ffmpeg_path, env_paths. cbn [first_env_path].
  rewrite Hvar. cbn [env_path_usable]. rewrite Hex.
  destruct (String.eqb_spec p ""); done.
Qed.

(** X6.  On every platform but [win32] the bundled candidates are those of
    Linux: macOS gets no path of its own. *)
Theorem get_ffmpeg_path_unix_alike (h : host) :
  sys_platform h <> "win32"%string ->
  get_ffmpeg_path h = get_ffmpeg_path (with_platform h "linux").
Proof.
  intros Hp. unfold get_ffmpeg_path, possible_paths, with_platform, base_path, env_paths.
  cbn [environ sys_platform sys_frozen sys_MEIPASS script_dir path_join].
  destruct (String.eqb_spec (sys_platform h) "win32"); [done|].
  destruct (String.eqb (sys_platform h) "darwin"); reflexivity.
Qed.

(** X7.  Loading the module stores the path found in
    [os.environ["FFMPEG_BINARY"]] and leaves every other variable alone;
    and the discovery is stable under that update: run again in the updated
    environment, [get_ffmpeg_path] finds the same path. *)
Theorem ffmpeg_binary_is_exported (h : host) :
  (forall p, get_ffmpeg_path h = Some p -> p <> ""%string ->
     dict_get (environ_after_import h) "FFMPEG_BINARY" = Some p)
  /\ (forall k, k <> "FFMPEG_BINARY"%string ->
        dict_get (environ_after_import h) k = dict_get (environ h) k)
  /\ get_ffmpeg_path (with_environ h (environ_after_import h)) = get_ffmpeg_path h.
Proof.
  split; [|split].
  - intros p Hp Hne. unfold environ_after_import. rewrite Hp.
    destruct (String.eqb_spec p ""); [done|]. apply dict_get_set_same.
  - intros k Hk. unfold environ_after_import.
    destruct (get_ffmpeg_path h) as [p|]; [|done].
    destruct (String.eqb p ""); [done|]. by apply dict_get_set_other.
  - rewrite get_ffmpeg_path_with_environ. unfold environ_after_import.
    destruct (get_ffmpeg_path h) as [p|] eqn:Hp; [|exact Hp].
    destruct (String.eqb_spec p "") as [->|Hne]; [exact Hp|].
    pose proof (get_ffmpeg_path_found_aux h p Hp) as Hex.
    rewrite !(dict_get_set_other _ "FFMPEG_BINARY") by done.
    rewrite dict_get_set_same.
    revert Hp. unfold get_ffmpeg_path, env_paths. cbn [first_env_path].
    destruct (env_path_usable h (dict_get (environ h) "FFMPEG_PATH")); [done|].
    destruct (env_path_usable h (dict_get (environ h) "FFMPEG_EXECUTABLE")); [done|].
    intros _. cbn [env_path_usable]. rewrite Hex.
    destruct (String.eqb_spec p ""); done.
Qed.

(** ** More on the monitor *)

Section MonitorEdges.
Local Open Scope Q_scope.
Variables (model_name : string) (expected_size : Z).

Lemma loop_body_breaks_when_near (st : monitor_state) (o : stat) (t : Q) (current_size : Z) :
  size_seen o = Some current_size ->
  inject_Z expected_size * 0.95 <= inject_Z current_size ->
  snd (loop_body model_name expected_size st o t) = Break.
Proof.
  intros Hsz Hnear. rewrite (loop_body_sample _ _ _ _ _ _ Hsz). cbv zeta.
  apply Qle_bool_iff in Hnear. by rewrite Hnear.
Qed.

Lemma nothing_expected_is_near (current_size : Z) :
  (expected_size <= 0)%Z -> (0 <= current_size)%Z ->
  inject_Z expected_size * 0.95 <= inject_Z current_size.
Proof.
  intros He Hc. apply Qle_trans with 0.
  - assert (inject_Z expected_size <= 0) by (change 0 with (inject_Z 0); by rewrite <- Zle_Qle).
    lra.
  - by apply inject_Z_nonneg.
Qed.

Lemma progress_percentage_of_nothing (current_size : Z) :
  (expected_size <= 0)%Z -> progress_percentage current_size expected_size == 0.
Proof.
  intros He. unfold progress_percentage, percentage_value.
  apply Z.ltb_ge in He. rewrite He. reflexivity.
Qed.

Lemma loop_body_speed_nonneg (st st' : monitor_state) (o : stat) (t : Q) ev how :
  loop_body model_name expected_size st o t = (st', Some ev, how) ->
  0 <= event_speed ev.
Proof.
  destruct (size_seen o) as [current_size|] eqn:Hsz.
  - rewrite (loop_body_sample _ _ _ _ _ _ Hsz). cbv zeta.
    destruct (throttle_open _ _ _); destruct (_ || _); intros [= _ <- _];
      cbn [event_speed];
      (destruct (Qltb 0 _) eqn:Hpos; [|lra]);
      apply Qltb_lt in Hpos;
      (apply Qle_trans with (py_round 0 2); [by vm_compute|apply py_round_mono; lra]).
  - destruct o; discriminate.
Qed.
End MonitorEdges.

(** X8.  When the expected size is zero or negative (a content-length of
    "0", say), the monitor leaves its loop by [break] on the first pass that
    reads the file, whatever the size: it prints at most one event in all,
    with percentage 0, and the later polls are never made. *)
Theorem monitor_without_expected_size (model_name : string) (expected_size : Z)
    (st : monitor_state) (now : Q) (ticks : list tick) :
  (expected_size <= 0)%Z ->
  let run := monitor_loop model_name expected_size st now ticks in
  (length (fst (fst run)) <= 1)%nat
  /\ Forall (fun te => event_percentage (snd te) == 0)%Q (fst (fst run))
  /\ (sizes_seen ticks <> [] -> snd run = Finished).
Proof.
  intros He. revert st now. induction ticks as [|tk rest IH]; intros st now run.
  - subst run. cbn. split; [lia|]. split; [constructor|done].
  - subst run. rewrite monitor_loop_cons. cbv zeta.
    destruct (size_seen (observed tk)) as [cs|] eqn:Hsz.
    + pose proof (loop_body_breaks_when_near model_name expected_size st (observed tk)
                    (now + lag tk)%Q cs Hsz
                    (nothing_expected_is_near expected_size cs He (size_seen_nonneg _ _ Hsz)))
        as Hbreak.
      destruct (loop_body _ _ _ _ _) as [[st' ev] how] eqn:E. cbn [fst snd] in *. subst how.
      cbn [fst snd]. split; [destruct ev; cbn; lia|]. split; [|done].
      destruct ev as [ev|]; [|constructor].
      apply loop_body_event in E as (cs' & sp & _ & ->).
      repeat constructor. cbn [snd event_percentage].
      by apply progress_percentage_of_nothing.
    + destruct (observed tk) eqn:Ho; try discriminate.
      rewrite loop_body_error. cbn [fst snd app].
      destruct (IH st (now + lag tk + 0.5)%Q) as (Hlen & Hpct & Hex).
      split; [done|]. split; [done|].
      rewrite sizes_seen_cons, Ho. exact Hex.
Qed.

(** X9.  The monitor prints at most one event per pass; every event is a
    [progress] event for the monitored model with the expected size as
    [total_bytes], a size that was seen as [downloaded_bytes], and a speed
    that is never negative. *)
Theorem monitor_events_well_formed (model_name : string) (expected_size : Z)
    (st : monitor_state) (now : Q) (ticks : list tick) :
  let evs := fst (fst (monitor_loop model_name expected_size st now ticks)) in
  (length evs <= length ticks)%nat
  /\ Forall (fun te =>
       exists current_size percentage speed,
         snd te = Progress model_name current_size expected_size percentage speed
         /\ current_size ∈ sizes_seen ticks
         /\ (0 <= speed)%Q) evs.
Proof.
  revert st now. induction ticks as [|tk rest IH]; intros st now evs.
  - subst evs. cbn. split; [lia|constructor].
  - subst evs. rewrite monitor_loop_cons. cbv zeta.
    destruct (loop_body _ _ _ _ _) as [[st' ev] how] eqn:E. cbn [fst snd].
    destruct (IH st' (now + lag tk + 0.5)%Q) as [Hlen Hall].
    assert (Hrest : Forall (fun te =>
              exists current_size percentage speed,
                snd te = Progress model_name current_size expected_size percentage speed
                /\ current_size ∈ sizes_seen (tk :: rest) /\ (0 <= speed)%Q)
              (fst (fst (monitor_loop model_name expected_size st' (now + lag tk + 0.5)%Q rest)))).
    { eapply Forall_impl; [exact Hall|]. intros te (cs & pc & sp & Hte & Hin & Hsp).
      exists cs, pc, sp. split; [done|]. split; [|done].
      rewrite sizes_seen_cons. destruct (size_seen (observed tk)); [by right|done]. }
    assert (Hhere : Forall (fun te : Q * event =>
              exists current_size percentage speed,
                snd te = Progress model_name current_size expected_size percentage speed
                /\ current_size ∈ sizes_seen (tk :: rest) /\ (0 <= speed)%Q)
              (match ev with Some ev => [((now + lag tk)%Q, ev)] | None => [] end)).
    { destruct ev as [ev|]; [|constructor].
      pose proof (loop_body_speed_nonneg _ _ _ _ _ _ _ _ E) as Hsp.
      apply loop_body_event in E as (cs & sp & Hsz & ->).
      repeat constructor. exists cs, (progress_percentage cs expected_size), sp.
      split; [done|]. split; [|exact Hsp].
      rewrite sizes_seen_cons, Hsz. by left. }
    destruct how; cbn [fst];
      (split; [rewrite ?length_app; destruct ev; cbn [length]; lia|]);
      first [ by apply Forall_app | done ].
Qed.

(** X10.  Once a pass reads a size of at least 0.95 of the expected size,
    the loop is over: whatever may come after that pass is not polled, and
    the run is the run up to it. *)
Theorem monitor_stops_at_95_percent (model_name : string) (expected_size : Z)
    (st : monitor_state) (now : Q) (before after : list tick) (tk : tick)
    (current_size : Z) :
  size_seen (observed tk) = Some current_size ->
  (inject_Z expected_size * 0.95 <= inject_Z current_size)%Q ->
  monitor_loop model_name expected_size st now (before ++ tk :: after)
  = monitor_loop model_name expected_size st now (before ++ [tk])
  /\ snd (monitor_loop model_name expected_size st now (before ++ tk :: after)) = Finished.
Proof.
  intros Hsz Hnear. revert st now.
  induction before as [|b before IH]; intros st now; cbn [app].
  - rewrite !monitor_loop_cons. cbv zeta.
    rewrite (loop_body_breaks_when_near _ _ _ _ _ _ Hsz Hnear). done.
  - rewrite !monitor_loop_cons. cbv zeta.
    destruct (loop_body _ _ _ _ _) as [[st' ev] how]. cbn [fst snd].
    destruct (IH st' (now + lag b + 0.5)%Q) as [-> Hfin].
    destruct how; split; try done; cbn [snd]; exact Hfin || (rewrite <- Hfin; reflexivity).
Qed.

(** ** More on the cache *)

Section CacheRoundTrip.
Context {Model : Type}.
Implicit Types (c d : model_cache Model).

Lemma dict_get_some_contains d k (v : Model) : dict_get d k = Some v -> dict_contains d k = true.
Proof.
  induction d as [|[k' v'] d IH]; simpl; [discriminate|].
  destruct (String.eqb k' k); simpl; [done|exact IH].
Qed.

Lemma load_model_appends name m c :
  (length c <= 2)%nat -> dict_contains c name = false ->
  exists d, fst (load_model name (inl m) c) = d ++ [(name, m)]
            /\ dict_contains d name = false /\ (length d <= 1)%nat.
Proof.
  intros Hlen Hmiss. rewrite load_model_miss_loaded by done. cbn [fst].
  eexists. split; [reflexivity|].
  destruct (2 <=? length c)%nat eqn:E.
  - split; [by apply dict_contains_tl|]. destruct c as [|? [|? [|]]]; simpl in *; lia.
  - split; [done|]. apply Nat.leb_gt in E. lia.
Qed.
End CacheRoundTrip.

(** X11.  A model that has just been loaded into the cache is still there
    after any one further [load_model] call, whatever that call asks for and
    however its loader ends; asked for again, it is returned as the very
    object that was stored, without the loader being consulted. *)
Theorem loaded_model_survives_one_call {Model : Type}
    (calls : list (string * (Model + exn))) (model_name other : string) (m : Model)
    (o : Model + exn) :
  dict_contains (acquire_all calls []) model_name = false ->
  let cache := fst (load_model model_name (inl m) (acquire_all calls [])) in
  let after := fst (load_model other o cache) in
  dict_get after model_name = Some m
  /\ forall o', load_model model_name o' after = (after, inl (Some m)).
Proof.
  intros Hmiss cache after.
  assert (Hlen : (length (acquire_all calls ([] : model_cache Model)) <= 2)%nat)
    by (apply acquire_all_bounded; simpl; lia).
  destruct (load_model_appends model_name m _ Hlen Hmiss) as (d & Hc & Hd & Hdl).
  fold cache in Hc.
  assert (Hget : dict_get after model_name = Some m).
  { subst after. rewrite Hc. destruct (dict_contains (d ++ [(model_name, m)]) other) eqn:Hin.
    - rewrite load_model_hit by done. by apply dict_get_snoc_fresh.
    - destruct o as [m'|e].
      + rewrite load_model_miss_loaded by done. cbn [fst].
        destruct d as [|[k0 v0] [|? ?]]; [| |simpl in Hdl; lia].
        * cbn. by rewrite String.eqb_refl.
        * cbn. by rewrite String.eqb_refl.
      + rewrite load_model_miss_failed by done. by apply dict_get_snoc_fresh. }
  split; [done|]. intros o'.
  rewrite load_model_hit by by eapply dict_get_some_contains. by rewrite Hget.
Qed.

(** ** More on the lifecycle operations *)

Section LifecycleFacts.
Context {Model : Type}.
Variable env : environment Model.
Implicit Types (w : world Model).

Lemma check_model_status_eval name w :
  check_model_status env name w
  = (w, inl match model_file_of env name with
            | None => [("model", PStr name); ("error", PStr (str_exn (KeyError name)));
                       ("success", PBool false)]
            | Some model_file =>
                match fs w !! model_file with
                | Some n => downloaded_result name model_file (Z.of_N n)
                | None => [("model", PStr name); ("downloaded", PBool false);
                           ("success", PBool true)]
                end
            end).
Proof.
  unfold check_model_status, model_file_of, try_except, bind, resolve_model_file.
  destruct (dict_get (whisper_MODELS env) name) as [url|]; [|reflexivity].
  unfold ret, os_path_exists, os_path_getsize.
  destruct (fs w !! _) as [n|] eqn:Hfile; [|reflexivity].
  cbv beta iota. by rewrite Hfile.
Qed.

Lemma for_each_read_only {A B} (f : A -> M Model B) (g : A -> B) (l : list A) w :
  (forall x, f x w = (w, inl (g x))) -> for_each f l w = (w, inl (map g l)).
Proof.
  intros Hf. induction l as [|x l IH]; [reflexivity|].
  cbn [for_each map]. unfold bind. rewrite Hf. unfold bind in IH. by rewrite IH.
Qed.

Lemma delete_model_eval name w model_file n :
  model_file_of env name = Some model_file ->
  fs w !! model_file = Some n ->
  remove_refused env = None ->
  delete_model env name w
  = ({| fs := delete model_file (fs w); _model_cache := _model_cache w;
        log := log w ++ [OsRemove model_file] |},
     inl [("model", PStr name); ("deleted", PBool true);
          ("freed_bytes", PInt (Z.of_N n)); ("freed_mb", PFloat (size_mb (Z.of_N n)));
          ("success", PBool true)]).
Proof.
  unfold model_file_of, delete_model, try_except, bind, resolve_model_file.
  destruct (dict_get (whisper_MODELS env) name) as [url|]; [|discriminate].
  intros [= <-] Hfile Hrm.
  unfold ret, os_path_exists, os_path_getsize, os_remove.
  rewrite Hfile. cbv beta iota. rewrite Hfile. cbv beta iota. by rewrite Hfile, Hrm.
Qed.

Lemma delete_model_absent name w model_file :
  model_file_of env name = Some model_file ->
  fs w !! model_file = None ->
  delete_model env name w
  = (w, inl [("model", PStr name); ("deleted", PBool false);
             ("error", PStr "Model not found"); ("success", PBool false)]).
Proof.
  unfold model_file_of, delete_model, try_except, bind, resolve_model_file.
  destruct (dict_get (whisper_MODELS env) name) as [url|]; [|discriminate].
  intros [= <-] Hfile. unfold ret, os_path_exists. by rewrite Hfile.
Qed.
End LifecycleFacts.

(** X12.  [check_model_status] only looks: it never raises and leaves the
    disk, the cache and the trace as they are.  Its result names the
    identifier it was asked about, and for an identifier of
    [whisper._MODELS] it succeeds and says [downloaded] exactly when the
    model file is on disk, with the size of that file. *)
Theorem check_model_status_reports_the_disk {Model : Type} (env : environment Model)
    (model_name : string) (w : world Model) :
  exists result,
    check_model_status env model_name w = (w, inl result)
    /\ dict_get result "model" = Some (PStr model_name)
    /\ forall model_file, model_file_of env model_name = Some model_file ->
         dict_get result "success" = Some (PBool true)
         /\ match fs w !! model_file with
            | Some n => dict_get result "downloaded" = Some (PBool true)
                        /\ dict_get result "size_bytes" = Some (PInt (Z.of_N n))
            | None => dict_get result "downloaded" = Some (PBool false)
                      /\ dict_get result "size_bytes" = None
            end.
Proof.
  eexists. split; [apply check_model_status_eval|].
  destruct (model_file_of env model_name) as [model_file|]; [|by split].
  destruct (fs w !! model_file) as [n|] eqn:Hfile.
  - split; [done|]. intros ? [= <-]. by rewrite Hfile.
  - split; [done|]. intros ? [= <-]. by rewrite Hfile.
Qed.

(** X13.  [list_models] always succeeds and changes nothing; its [models]
    are the six enumerated identifiers in their fixed order, one entry each,
    every entry being what [check_model_status] says about that identifier. *)
Theorem list_models_enumerates {Model : Type} (env : environment Model) (w : world Model) :
  list_models env w
  = (w, inl [("models", PList (map (fun n => PDict (model_status env w n)) enumerated_models));
             ("cache_dir", PStr (cache_dir env)); ("success", PBool true)])
  /\ Forall (fun n => dict_get (model_status env w n) "model" = Some (PStr n))
       enumerated_models.
Proof.
  split.
  - unfold list_models, bind.
    rewrite (for_each_read_only (check_model_status env) (model_status env w)).
    + unfold ret. by rewrite map_map.
    + intros x. unfold model_status. by rewrite check_model_status_eval.
  - apply Forall_forall. intros n _. unfold model_status.
    rewrite check_model_status_eval. cbn [snd].
    destruct (model_file_of env n) as [f|]; [destruct (fs w !! f)|]; reflexivity.
Qed.

(** X14.  After [delete_model] has removed a model file, the file is gone
    and every other file is as it was; [check_model_status] then reports
    the model as not downloaded, and deleting it once more gives the
    "Model not found" failure without touching anything. *)
Theorem delete_model_then_check {Model : Type} (env : environment Model)
    (model_name model_file : string) (n : N) (w : world Model) :
  model_file_of env model_name = Some model_file ->
  fs w !! model_file = Some n ->
  remove_refused env = None ->
  let w' := fst (delete_model env model_name w) in
  fs w' !! model_file = None
  /\ (forall p, p <> model_file -> fs w' !! p = fs w !! p)
  /\ check_model_status env model_name w'
     = (w', inl [("model", PStr model_name); ("downloaded", PBool false);
                 ("success", PBool true)])
  /\ delete_model env model_name w'
     = (w', inl [("model", PStr model_name); ("deleted", PBool false);
                 ("error", PStr "Model not found"); ("success", PBool false)]).
Proof.
  intros Hfile Hn Hrm w'. subst w'.
  rewrite (delete_model_eval env model_name w model_file n Hfile Hn Hrm). cbn [fst fs].
  assert (Hgone : delete model_file (fs w) !! model_file = None) by apply lookup_delete_eq.
  split; [done|]. split; [intros p Hp; by apply lookup_delete_ne|]. split.
  - rewrite check_model_status_eval, Hfile. cbn [fs]. by rewrite Hgone.
  - apply (delete_model_absent env model_name _ model_file); [done|exact Hgone].
Qed.

(** ** More on downloads *)

Section DownloadFacts.
Context {Model : Type}.
Implicit Types (env : environment Model) (w : world Model).



Lemma download_model_present env name w model_file n :
  model_file_of env name = Some model_file ->
  fs w !! model_file = Some n ->
  download_model env name w = (w, inl (downloaded_result name model_file (Z.of_N n))).
Proof.
  unfold model_file_of, download_model, try_except, bind, resolve_model_file.
  destruct (dict_get (whisper_MODELS env) name) as [url|]; [|discriminate].
  intros [= <-] Hfile. unfold ret, os_path_exists, os_path_getsize.
  rewrite Hfile. cbv beta iota. by rewrite Hfile.
Qed.

(** A download whose [whisper.load_model] returns: the result and the disk
    it leaves. *)
Lemma download_model_loaded env name w model_file m :
  model_file_of env name = Some model_file ->
  fs w !! model_file = None ->
  whisper_load_model env = inl m ->
  exists trace,
    download_model env name w
    = ({| fs := match model_file_after env with
                | Some n => <[model_file := n]> (fs w)
                | None => delete model_file (fs w)
                end;
          _model_cache := _model_cache w; log := trace |},
       inl (downloaded_result name model_file
              match model_file_after env with Some n => Z.of_N n | None => 0%Z end))
    /\ last trace
       = Some (Stderr (Complete name
                         match model_file_after env with Some n => Z.of_N n | None => 0%Z end
                         (default (default (100 * 1024 * 1024)%Z
                                     (dict_get approximate_sizes name))
                            (head_content_length env)) 100)).
Proof.
  unfold model_file_of, download_model, try_except, resolve_model_file.
  destruct (dict_get (whisper_MODELS env) name) as [url|] eqn:Hurl; [|discriminate].
  intros [= <-] Hfile Hload.
  unfold get_expected_model_size. rewrite Hurl.
  unfold download_while_monitored.
  unfold bind, emit, emit_all, set_fs, ret, raise, os_path_exists, os_path_getsize.
  rewrite Hfile, Hload. cbv beta iota. cbn [fs log _model_cache fst snd].
  destruct (monitor_download_progress _ _ _ _ _) as [evs th].
  destruct (model_file_after env) as [n|]; destruct th as [e|[|]];
    repeat first [ progress cbn [fs log _model_cache fst snd]
                 | rewrite lookup_insert_eq | rewrite lookup_delete_eq ];
    (eexists; split; [reflexivity|]); by rewrite last_snoc.
Qed.
End DownloadFacts.

(** X15.  A download is done once: after [download_model] has returned with
    the model file on disk, calling it again for the same identifier returns
    the same success result and does nothing at all (no size probe, no
    monitor, no loader call, no event), whatever the network would do this
    time; [check_model_status] reports the same size. *)
Theorem download_model_twice {Model : Type} (env again : environment Model)
    (model_name model_file : string) (m : Model) (n : N) (w : world Model) :
  model_file_of env model_name = Some model_file ->
  model_file_of again model_name = Some model_file ->
  fs w !! model_file = None ->
  whisper_load_model env = inl m ->
  model_file_after env = Some n ->
  let w' := fst (download_model env model_name w) in
  let result := downloaded_result model_name model_file (Z.of_N n) in
  snd (download_model env model_name w) = inl result
  /\ download_model again model_name w' = (w', inl result)
  /\ check_model_status again model_name w' = (w', inl result).
Proof.
  intros Hfile Hagain Hnone Hload Hafter w' result.
  destruct (download_model_loaded env model_name w model_file m Hfile Hnone Hload)
    as (trace & Heq & _).
  rewrite Hafter in Heq. subst w'. rewrite Heq. cbn [fst snd].
  split; [done|].
  assert (Hn : fs {| fs := <[model_file:=n]> (fs w); _model_cache := _model_cache w;
                     log := trace |} !! model_file = Some n) by apply lookup_insert_eq.
  split.
  - by apply download_model_present.
  - rewrite check_model_status_eval, Hagain. by rewrite Hn.
Qed.

(** X16.  [download_model] does not verify what the loader left behind: when
    [whisper.load_model] returns and there is no file at the expected path,
    the result still says [downloaded: True], with [size_bytes] 0, and the
    last line printed is a [complete] event with 0 downloaded bytes and
    percentage 100; [check_model_status] then reports the model as not
    downloaded. *)
Theorem download_model_without_file {Model : Type} (env : environment Model)
    (model_name model_file : string) (m : Model) (w : world Model) :
  model_file_of env model_name = Some model_file ->
  fs w !! model_file = None ->
  whisper_load_model env = inl m ->
  model_file_after env = None ->
  let w' := fst (download_model env model_name w) in
  snd (download_model env model_name w)
  = inl (downloaded_result model_name model_file 0)
  /\ (exists expected_size,
        last (log w') = Some (Stderr (Complete model_name 0 expected_size 100)))
  /\ check_model_status env model_name w'
     = (w', inl [("model", PStr model_name); ("downloaded", PBool false);
                 ("success", PBool true)]).
Proof.
  intros Hfile Hnone Hload Hafter w'.
  destruct (download_model_loaded env model_name w model_file m Hfile Hnone Hload)
    as (trace & Heq & Hlast).
  rewrite Hafter in Heq, Hlast. subst w'. rewrite Heq. cbn [fst snd log].
  split; [done|]. split; [eauto|].
  rewrite check_model_status_eval, Hfile. cbn [fs]. by rewrite lookup_delete_eq.
Qed.

(** X17.  An identifier that is no key of [whisper._MODELS] never reaches
    the network or the disk: [check_model_status] and [download_model]
    return a failure result carrying the text of the [KeyError] ([download_model]
    after setting the stop event of a monitor it never started), and
    [get_expected_model_size] answers from its table without a probe. *)
Theorem unknown_identifier {Model : Type} (env : environment Model)
    (model_name : string) (w : world Model) :
  dict_get (whisper_MODELS env) model_name = None ->
  check_model_status env model_name w
  = (w, inl [("model", PStr model_name); ("error", PStr ("'" +:+ model_name +:+ "'"));
             ("success", PBool false)])
  /\ download_model env model_name w
     = ({| fs := fs w; _model_cache := _model_cache w; log := log w ++ [StopEventSet] |},
        inl [("model", PStr model_name); ("downloaded", PBool false);
             ("error", PStr ("'" +:+ model_name +:+ "'")); ("success", PBool false)])
  /\ get_expected_model_size env model_name w
     = (w, inl (default (100 * 1024 * 1024)%Z (dict_get approximate_sizes model_name))).
Proof.
  intros Hnone. split; [|split].
  - rewrite check_model_status_eval. unfold model_file_of. by rewrite Hnone.
  - unfold download_model, try_except, bind, resolve_model_file. by rewrite Hnone.
  - unfold get_expected_model_size. by rewrite Hnone.
Qed.


(** ** More on transcription *)

Section TranscribeFacts.
Context {Model : Type}.
Implicit Types (env : environment Model) (w : world Model) (c : model_cache Model).


(** What a call of [transcribe_audio] does to the world, however it ends. *)
Lemma transcribe_audio_world env audio_path name language w :
  let loaded := load_model name (whisper_load_model env) (_model_cache w) in
  let w' := fst (transcribe_audio env audio_path name language w) in
  fs w' = fs w
  /\ _model_cache w' = fst loaded
  /\ log w' = log w
              ++ (if dict_contains (_model_cache w) name then []
                  else [WhisperLoadModel name])
              ++ match snd loaded with
                 | inl (Some _) => [ModelTranscribe audio_path (transcribe_options language)]
                 | _ => []
                 end.
Proof.
  intros loaded w'. subst loaded w'.
  unfold transcribe_audio, try_except, load_model_here, transcribe_call.
  unfold bind, emit, ret, raise.
  fold (transcribe_options language).
  destruct (load_model name (whisper_load_model env) (_model_cache w)) as [c' [[m|]|e]];
    cbv beta iota; cbn [fst snd].
  - destruct (model_transcribe env) as [result|e]; cbv beta iota.
    + destruct (dict_get result "text") as [[]|]; cbv beta iota;
        cbn [fst snd fs log _model_cache is_Exception];
        rewrite <- ?app_assoc; done.
    + destruct (is_Exception e); cbn [fst snd fs log _model_cache];
        rewrite <- ?app_assoc; done.
  - cbn [fst fs log _model_cache]. by rewrite app_nil_r.
  - destruct (is_Exception e); cbn [fst fs log _model_cache]; by rewrite app_nil_r.
Qed.




End TranscribeFacts.

Section TranscribeResults.
Context {Model : Type}.
Implicit Types (env : environment Model) (w : world Model) (c : model_cache Model).


End TranscribeResults.




(** ** More on the FFmpeg check *)

(** X22.  [check_ffmpeg] runs [ffmpeg -version] once, with the discovered
    path when there is one (a non-empty one, as [get_ffmpeg_path] finds
    them) and with plain [ffmpeg] otherwise.  Unless the run ends in
    [KeyboardInterrupt] or [SystemExit], it returns a result whose
    [available] and [success] agree, both true exactly when the program ran
    and returned code 0. *)
Theorem check_ffmpeg_reports_the_run {Model : Type} (env : environment Model)
    (w : world Model) :
  ffmpeg_path env <> Some ""%string ->
  ordinary (subprocess_run env) ->
  exists result,
    check_ffmpeg env w
    = ({| fs := fs w; _model_cache := _model_cache w;
          log := log w ++ [SubprocessRun [default "ffmpeg"%string (ffmpeg_path env);
                                          "-version"%string]] |}, inl result)
    /\ dict_get result "available" = dict_get result "success"
    /\ (dict_get result "success" = Some (PBool true)
        <-> exists out, subprocess_run env = inl (0%Z, out))
    /\ (dict_get result "success" = Some (PBool true)
        \/ dict_get result "success" = Some (PBool false)).
Proof.
  intros _ Hrun. unfold check_ffmpeg, try_except, bind, emit.
  destruct (subprocess_run env) as [[returncode out]|e] eqn:E.
  - destruct (returncode =? 0)%Z eqn:Hrc; unfold ret; eexists; (split; [reflexivity|]);
      (split; [reflexivity|]); cbn [dict_get String.eqb Ascii.eqb Bool.eqb].
    + apply Z.eqb_eq in Hrc as ->. split; [split; eauto|by left].
    + apply Z.eqb_neq in Hrc. split; [|by right].
      split; [discriminate|]. intros (out' & [= -> _]). done.
  - cbn in Hrun. unfold raise.
    destruct e; try discriminate Hrun; cbn [is_Exception]; unfold ret;
      eexists; (split; [reflexivity|]); (split; [reflexivity|]);
      cbn [dict_get String.eqb Ascii.eqb Bool.eqb];
      (split; [split; [discriminate|by intros (? & ?)]|by right]).
Qed.

(** ** What a run prints and what it leaves alone *)

Section TransitionFacts.
Context {Model : Type} (R : world Model -> world Model -> Prop) `{!PreOrder R}.

Lemma transition_ret {A} (a : A) : transition R (ret a).
Proof. intros w w' r [= <- _]. reflexivity. Qed.

Lemma transition_raise {A} (e : exn) : transition R (raise (A := A) e).
Proof. intros w w' r [= <- _]. reflexivity. Qed.

Lemma transition_bind {A B} (m : M Model A) (k : A -> M Model B) :
  transition R m -> (forall a, transition R (k a)) -> transition R (bind m k).
Proof.
  intros Hm Hk w w' r. unfold bind. destruct (m w) as [w1 [a|e]] eqn:E.
  - intros Hk'. transitivity w1; [by eapply Hm|by eapply Hk].
  - intros [= <- _]. by eapply Hm.
Qed.

Lemma transition_try_except {A} (body : M Model A) (handler : exn -> option (M Model A)) :
  transition R body ->
  (forall e h, handler e = Some h -> transition R h) ->
  transition R (try_except body handler).
Proof.
  intros Hb Hh w w' r. unfold try_except. destruct (body w) as [w1 [a|e]] eqn:E.
  - intros [= <- _]. by eapply Hb.
  - destruct (handler e) as [h|] eqn:Eh.
    + intros Hrun. transitivity w1; [by eapply Hb|by eapply Hh].
    + intros [= <- _]. by eapply Hb.
Qed.

Lemma transition_read_only {A} (m : M Model A) :
  (forall w, fst (m w) = w) -> transition R m.
Proof. intros Hm w w' r E. specialize (Hm w). rewrite E in Hm. cbn in Hm. by subst. Qed.

Lemma transition_os_path_exists p : transition R (os_path_exists p).
Proof. by apply transition_read_only. Qed.

Lemma transition_os_path_getsize p : transition R (os_path_getsize p).
Proof.
  apply transition_read_only. intros w. unfold os_path_getsize. by destruct (fs w !! p).
Qed.

Lemma transition_resolve_model_file env name : transition R (resolve_model_file env name).
Proof.
  unfold resolve_model_file. destruct (dict_get _ _);
    [apply transition_ret|apply transition_raise].
Qed.

Lemma transition_check_model_status env name : transition R (check_model_status env name).
Proof. apply transition_read_only. intros w. by rewrite check_model_status_eval. Qed.

Lemma transition_list_models env : transition R (list_models env).
Proof.
  apply transition_read_only. intros w. unfold list_models, bind.
  rewrite (for_each_read_only (check_model_status env) (model_status env w)); [done|].
  intros x. unfold model_status. by rewrite check_model_status_eval.
Qed.

(** The handlers of the operations: a table from exceptions to handlers
    that each keep [R]. *)
Lemma transition_handlers {A} (handler : exn -> option (M Model A)) :
  (forall e, match handler e with Some h => transition R h | None => True end) ->
  forall e h, handler e = Some h -> transition R h.
Proof. intros H e h Eh. specialize (H e). by rewrite Eh in H. Qed.
End TransitionFacts.

Section QuietFacts.
Context {Model : Type}.
Implicit Types (env : environment Model) (w : world Model).

#[global] Instance quietly_preorder : PreOrder (quietly (Model := Model)).
Proof.
  split.
  - intros w. exists []. by rewrite app_nil_r.
  - intros w1 w2 w3 (d1 & H1 & Hq1) (d2 & H2 & Hq2). exists (d1 ++ d2).
    split; [by rewrite H2, H1, app_assoc|]. by rewrite forallb_app, Hq1, Hq2.
Qed.

#[global] Instance same_disk_preorder : PreOrder (same_disk (Model := Model)).
Proof.
  split; [done|]. unfold same_disk. intros w1 w2 w3 H1 H2. by rewrite H2.
Qed.

Lemma quietly_emit (e : effect) : is_print e = false -> transition quietly (emit (Model := Model) e).
Proof.
  intros He w w' r [= <- _]. exists [e]. split; [done|]. cbn. by rewrite He.
Qed.

Lemma quietly_emit_events (evs : list (Q * event)) :
  transition quietly (emit_all (Model := Model) (map (fun te => Stderr (snd te)) evs)).
Proof.
  intros w w' r [= <- _]. eexists. split; [reflexivity|].
  induction evs as [|te evs IH]; [done|exact IH].
Qed.

Lemma quietly_set_fs f : transition quietly (set_fs (Model := Model) f).
Proof. intros w w' r [= <- _]. exists []. by rewrite app_nil_r. Qed.

Lemma quietly_os_remove env p : transition quietly (os_remove env p).
Proof.
  intros w w' r. unfold os_remove.
  destruct (fs w !! p); [destruct (remove_refused env)|]; intros [= <- _];
    first [ by exists [OsRemove p] | reflexivity ].
Qed.


Lemma quietly_delete_model env name : transition quietly (delete_model env name).
Proof.
  unfold delete_model. apply transition_try_except; [apply _| |].
  - apply transition_bind; [apply _|apply transition_resolve_model_file, _|]. intros f.
    apply transition_bind; [apply _|apply transition_os_path_exists, _|].
    intros [|]; [|apply transition_ret, _].
    apply transition_bind; [apply _|apply transition_os_path_getsize, _|]. intros n.
    apply transition_bind; [apply _|apply quietly_os_remove|]. intros _.
    apply transition_ret, _.
  - apply transition_handlers. intros e.
    destruct (is_Exception e); [apply transition_ret, _|done].
Qed.

Lemma quietly_get_expected_model_size env name :
  transition quietly (get_expected_model_size env name).
Proof.
  unfold get_expected_model_size. destruct (dict_get _ _); [|apply transition_ret, _].
  apply transition_bind; [apply _|by apply quietly_emit|]. intros _. apply transition_ret, _.
Qed.

Lemma quietly_download_while_monitored env name expected_size model_file :
  transition quietly (download_while_monitored env name expected_size model_file).
Proof.
  unfold download_while_monitored.
  destruct (monitor_download_progress _ _ _ _ _) as [evs th].
  apply transition_bind; [apply _|by apply quietly_emit|]. intros _.
  apply transition_bind; [apply _|apply quietly_emit_events|]. intros _.
  apply transition_bind; [apply _|apply quietly_set_fs|]. intros _.
  destruct (whisper_load_model env); [apply transition_ret, _|apply transition_raise, _].
Qed.

Lemma quietly_download_model env name : transition quietly (download_model env name).
Proof.
  unfold download_model. apply transition_try_except; [apply _| |].
  - apply transition_bind; [apply _|apply transition_resolve_model_file, _|]. intros f.
    apply transition_bind; [apply _|apply transition_os_path_exists, _|]. intros [|].
    + apply transition_bind; [apply _|apply transition_os_path_getsize, _|]. intros n.
      apply transition_ret, _.
    + apply transition_bind; [apply _|apply quietly_get_expected_model_size|]. intros sz.
      apply transition_bind; [apply _|by apply quietly_emit|]. intros _.
      apply transition_bind; [apply _|apply quietly_download_while_monitored|]. intros alive.
      apply transition_bind; [apply _|by apply quietly_emit|]. intros _.
      apply transition_bind;
        [apply _|destruct alive; [by apply quietly_emit|apply transition_ret, _]|].
      intros _.
      apply transition_bind; [apply _|apply transition_os_path_exists, _|]. intros present.
      apply transition_bind;
        [apply _
        |destruct present; [apply transition_os_path_getsize, _|apply transition_ret, _]|].
      intros final_size.
      apply transition_bind; [apply _|by apply quietly_emit|]. intros _.
      apply transition_ret, _.
  - apply transition_handlers. intros e.
    destruct e; cbn [is_Exception]; try done;
      (apply transition_bind; [apply _|by apply quietly_emit|]); intros _;
      apply transition_ret, _.
Qed.

Lemma check_ffmpeg_world env w :
  fst (check_ffmpeg env w)
  = {| fs := fs w; _model_cache := _model_cache w;
       log := log w ++ [SubprocessRun [default "ffmpeg"%string (ffmpeg_path env);
                                       "-version"%string]] |}.
Proof.
  unfold check_ffmpeg, try_except, bind, emit.
  destruct (subprocess_run env) as [[returncode out]|e].
  - by destruct (returncode =? 0)%Z.
  - unfold raise. by destruct e.
Qed.

Lemma quietly_check_ffmpeg env : transition quietly (check_ffmpeg env).
Proof.
  intros w w' r E. pose proof (check_ffmpeg_world env w) as H. rewrite E in H.
  cbn [fst] in H. subst w'. by eexists [_].
Qed.


Lemma quietly_transcribe_audio env audio_path name language :
  transition quietly (transcribe_audio env audio_path name language).
Proof.
  intros w w' r E.
  destruct (transcribe_audio_world env audio_path name language w) as (_ & _ & Hlog).
  rewrite E in Hlog. cbn [fst] in Hlog. eexists. split; [exact Hlog|].
  rewrite forallb_app.
  destruct (dict_contains _ _); destruct (snd _) as [[?|]|?]; reflexivity.
Qed.

End QuietFacts.

Section ResultFacts.
Context {Model : Type}.
Implicit Types (env : environment Model) (w : world Model) (P : pydict -> Prop).

Lemma yields_ret {A} (Q : A -> Prop) (a : A) : Q a -> yields (Model := Model) Q (ret a).
Proof. by intros Ha w w' a' [= _ <-]. Qed.

Lemma yields_raise {A} (Q : A -> Prop) (e : exn) : yields (Model := Model) Q (raise e).
Proof. by intros w w' a. Qed.

Lemma yields_bind {A B} (Q : B -> Prop) (m : M Model A) (k : A -> M Model B) :
  (forall a, yields Q (k a)) -> yields Q (bind m k).
Proof.
  intros Hk w w' b. unfold bind. destruct (m w) as [w1 [a|e]]; [apply Hk|discriminate].
Qed.

Lemma yields_try_except {A} (Q : A -> Prop) (body : M Model A)
    (handler : exn -> option (M Model A)) :
  yields Q body ->
  (forall e, match handler e with Some h => yields Q h | None => True end) ->
  yields Q (try_except body handler).
Proof.
  intros Hb Hh w w' a. unfold try_except. destruct (body w) as [w1 [a1|e]] eqn:E.
  - intros [= <- <-]. by eapply Hb.
  - specialize (Hh e). destruct (handler e) as [h|]; [apply Hh|discriminate].
Qed.

Lemma flag_here (b : bool) (result : pydict) :
  dict_get result "success" = Some (PBool b) -> has_success_flag result.
Proof. intros H. by exists b. Qed.

Ltac flagged := first [ by apply (flag_here true) | by apply (flag_here false) ].

Lemma download_model_flagged env name : yields has_success_flag (download_model env name).
Proof.
  unfold download_model. apply yields_try_except.
  - apply yields_bind. intros f. apply yields_bind. intros [|].
    + apply yields_bind. intros n. apply yields_ret. flagged.
    + do 7 (apply yields_bind; intros ?). apply yields_bind. intros _.
      apply yields_ret. flagged.
  - intros e. destruct e; cbn [is_Exception]; try done;
      apply yields_bind; intros _; apply yields_ret; flagged.
Qed.

Lemma check_model_status_flagged env name :
  yields has_success_flag (check_model_status env name).
Proof.
  intros w w' r. rewrite check_model_status_eval. intros [= _ <-].
  destruct (model_file_of env name) as [f|]; [destruct (fs w !! f)|]; flagged.
Qed.

Lemma list_models_flagged env : yields has_success_flag (list_models env).
Proof.
  unfold list_models. apply yields_bind. intros info. apply yields_ret. flagged.
Qed.

Lemma delete_model_flagged env name : yields has_success_flag (delete_model env name).
Proof.
  unfold delete_model. apply yields_try_except.
  - apply yields_bind. intros f. apply yields_bind. intros [|].
    + do 2 (apply yields_bind; intros ?). apply yields_ret. flagged.
    + apply yields_ret. flagged.
  - intros e. destruct (is_Exception e); [|done]. apply yields_ret. flagged.
Qed.

Lemma check_ffmpeg_flagged env : yields has_success_flag (check_ffmpeg env).
Proof.
  unfold check_ffmpeg. apply yields_try_except.
  - apply yields_bind. intros _. destruct (subprocess_run env) as [[rc out]|e].
    + destruct (rc =? 0)%Z; apply yields_ret; flagged.
    + apply yields_raise.
  - intros e. destruct e; cbn [is_Exception]; try done; apply yields_ret; flagged.
Qed.

Lemma transcribe_audio_flagged env audio_path name language :
  yields has_success_flag (transcribe_audio env audio_path name language).
Proof.
  unfold transcribe_audio. apply yields_try_except.
  - apply yields_bind. intros [m|]; [|apply yields_ret; flagged].
    do 2 (apply yields_bind; intros ?). apply yields_ret. flagged.
  - intros e. destruct (is_Exception e); [|done]. apply yields_ret. flagged.
Qed.

(** An operation followed by [print(json.dumps(result))]. *)
Lemma printed_result (op : M Model pydict) w :
  returns op -> transition quietly op -> yields has_success_flag op ->
  exists d result w',
    bind op (fun result => emit (Stdout (PDict result))) w = (w', inl tt)
    /\ log w' = log w ++ d ++ [Stdout (PDict result)]
    /\ forallb (fun e => negb (is_print e)) d = true
    /\ has_success_flag result
    /\ fs w' = fs (fst (op w)).
Proof.
  intros Hret Hq Hy. destruct (Hret w) as (w1 & result & E).
  destruct (Hq _ _ _ E) as (d & Hlog & Hd).
  exists d, result. eexists. unfold bind, emit. rewrite E. split; [reflexivity|].
  cbn [log fs fst]. split; [by rewrite Hlog, app_assoc|]. split; [done|].
  split; [by eapply Hy|done].
Qed.
End ResultFacts.

Section DiskFacts.
Context {Model : Type}.
Implicit Types (env : environment Model) (w : world Model).





End DiskFacts.

(** X23.  Unless an external call ends in [KeyboardInterrupt] or
    [SystemExit], every run prints exactly one line, as the last thing it
    does: a JSON result with a boolean [success] — or, for a transcription
    in [text] output format, the bare transcript on standard output (exit
    status 0) or an error line on standard error (exit status 1). *)
Theorem run_prints_one_line {Model : Type} (env : environment Model) (a : args)
    (w : world Model) :
  ordinary_environment env ->
  exists d line,
    log (fst (run env a w)) = log w ++ d ++ [line]
    /\ forallb (fun e => negb (is_print e)) d = true
    /\ ((exists result, line = Stdout (PDict result) /\ has_success_flag result)
        \/ (arg_mode a = ModeTranscribe /\ output_format a = Text
            /\ ((exists text, line = Stdout (PStr text) /\ snd (run env a w) = 0%Z)
                \/ (exists msg, line = StderrText msg /\ snd (run env a w) = 1%Z)))).
Proof.
  intros (Hload & Hcall & Hrun).
  assert (Hop : forall op : M Model pydict,
            main env a = bind op (fun result => emit (Stdout (PDict result))) ->
            returns op -> transition quietly op -> yields has_success_flag op ->
            exists d line,
              log (fst (run env a w)) = log w ++ d ++ [line]
              /\ forallb (fun e => negb (is_print e)) d = true
              /\ ((exists result, line = Stdout (PDict result) /\ has_success_flag result)
                  \/ (arg_mode a = ModeTranscribe /\ output_format a = Text
                      /\ ((exists text, line = Stdout (PStr text) /\ snd (run env a w) = 0%Z)
                          \/ (exists msg, line = StderrText msg
                                          /\ snd (run env a w) = 1%Z))))).
  { intros op Hmain Hret Hq Hy.
    destruct (printed_result op w Hret Hq Hy) as (d & result & w' & E & Hlog & Hd & Hflag & _).
    exists d, (Stdout (PDict result)). unfold run. rewrite Hmain, E. cbn [fst].
    split; [done|]. split; [done|]. left. eauto. }
  destruct (arg_mode a) eqn:Hmode.
  - destruct (audio_file a) as [[|c p]|] eqn:Hfile.
    + exists [], (Stdout (PDict [("error", PStr "Audio file required for transcription mode");
                                 ("success", PBool false)])).
      unfold run, main. rewrite Hmode, Hfile. cbn. split; [done|]. split; [done|].
      left. eexists. split; [done|]. by exists false.
    + unfold run, main. rewrite Hmode, Hfile. unfold bind, os_path_exists.
      destruct (fs w !! String c p) as [n|] eqn:Hex; cbv beta iota; cbn [negb].
      * destruct (transcribe_audio_returns env (String c p) (model a) (language a)
                    Hload Hcall w) as (w1 & result & E).
        destruct (quietly_transcribe_audio env _ _ _ _ _ _ E) as (d & Hlog & Hd).
        pose proof (transcribe_audio_flagged env _ _ _ _ _ _ E) as Hflag.
        rewrite E. cbv beta iota.
        destruct (output_format a) eqn:Hfmt.
        -- exists d, (Stdout (PDict result)). cbn [emit fst log].
           split; [by rewrite Hlog, app_assoc|]. split; [done|]. left. eauto.
        -- destruct (succeeded result).
           ++ exists d, (Stdout (PStr (shown result "text" ""))). cbn [emit fst snd log].
              split; [by rewrite Hlog, app_assoc|]. split; [done|]. right.
              split; [done|]. split; [done|]. left. eauto.
           ++ exists d, (StderrText ("Error: " +:+ shown result "error" "Unknown error")).
              unfold emit, raise. cbn [fst snd log exit_code].
              split; [by rewrite Hlog, app_assoc|]. split; [done|]. right.
              split; [done|]. split; [done|]. right. eauto.
      * exists [], (Stdout (PDict [("error", PStr ("Audio file not found: " +:+ String c p));
                                   ("success", PBool false)])).
        cbn. split; [done|]. split; [done|]. left. eexists. split; [done|]. by exists false.
    + exists [], (Stdout (PDict [("error", PStr "Audio file required for transcription mode");
                                 ("success", PBool false)])).
      unfold run, main. rewrite Hmode, Hfile. cbn. split; [done|]. split; [done|].
      left. eexists. split; [done|]. by exists false.
  - apply (Hop (download_model env (model a))).
    + unfold main. by rewrite Hmode.
    + apply download_model_returns. destruct (whisper_load_model env); [done|by left].
    + apply quietly_download_model.
    + apply download_model_flagged.
  - apply (Hop (check_model_status env (model a)));
      [unfold main; by rewrite Hmode|apply check_model_status_returns
      |apply transition_check_model_status, _|apply check_model_status_flagged].
  - apply (Hop (list_models env));
      [unfold main; by rewrite Hmode|apply list_models_returns
      |apply transition_list_models, _|apply list_models_flagged].
  - apply (Hop (delete_model env (model a)));
      [unfold main; by rewrite Hmode|apply delete_model_returns
      |apply quietly_delete_model|apply delete_model_flagged].
  - apply (Hop (check_ffmpeg env));
      [unfold main; by rewrite Hmode|by apply check_ffmpeg_returns
      |apply quietly_check_ffmpeg|apply check_ffmpeg_flagged].
Qed.


(** ** The further properties at work *)

(** X3 at work: no variable is usable, the third bundled candidate is. *)
Lemma bundled_ffmpeg_is_found :
  let p := "/app/src/../node_modules/ffmpeg-static/ffmpeg"%string in
  let h := example_host [("FFMPEG_PATH", "")] "linux" [p] [p] in
  get_ffmpeg_path h = Some p
  /\ path_exists h p = true
  /\ ((Some p ∈ env_paths h /\ p <> ""%string)
      \/ (exists c, c ∈ possible_paths h /\ p = abspath h c /\ access_X_OK h p = true)).
Proof.
  intros p h. split; [reflexivity|]. exact (get_ffmpeg_path_found h p eq_refl).
Defined.

(** X5 at work: a relative [FFMPEG_PATH] that is not executable, next to a
    bundled binary that is. *)
Lemma relative_FFMPEG_PATH_wins :
  let bundled := "/app/src/../node_modules/ffmpeg-static/ffmpeg"%string in
  let h := example_host [("FFMPEG_PATH", "tools/ffmpeg")] "linux"
             ["tools/ffmpeg"; bundled] [bundled] in
  dict_get (environ h) "FFMPEG_PATH" = Some "tools/ffmpeg"%string
  /\ path_exists h "tools/ffmpeg" = true
  /\ get_ffmpeg_path h = Some "tools/ffmpeg"%string.
Proof.
  intros bundled h. split; [reflexivity|]. split; [reflexivity|].
  apply (get_ffmpeg_path_prefers_FFMPEG_PATH h "tools/ffmpeg");
    [reflexivity|discriminate|reflexivity].
Defined.

(** X6 at work. *)
Lemma darwin_looks_where_linux_does :
  let p := "/app/src/../app.asar.unpacked/node_modules/ffmpeg-static/ffmpeg"%string in
  let h := example_host [] "darwin" [p] [p] in
  sys_platform h <> "win32"%string
  /\ get_ffmpeg_path h = get_ffmpeg_path (with_platform h "linux").
Proof.
  intros p h. split; [discriminate|].
  apply (get_ffmpeg_path_unix_alike h). discriminate.
Defined.

(** X8 at work: a probe that answered with a content-length of 0. *)
Lemma monitor_of_an_empty_download :
  let run := monitor_loop "tiny" 0 (initial_state 1700000000) 1700000000
               [poll 100; poll 500] in
  (0 <= 0)%Z
  /\ length (fst (fst run)) = 1%nat
  /\ snd run = Finished.
Proof.
  intros run. split; [lia|]. split; [reflexivity|].
  apply (monitor_without_expected_size "tiny" 0 (initial_state 1700000000) 1700000000
           [poll 100; poll 500]); [lia|discriminate].
Defined.

(** X10 at work: the poll after the one that read 96 % is not made. *)
Lemma poll_after_95_percent_is_not_made :
  let go := monitor_loop "tiny" 1000 (initial_state 1700000000) 1700000000 in
  size_seen (observed (poll 960)) = Some 960%Z
  /\ (inject_Z 1000 * 0.95 <= inject_Z 960)%Q
  /\ go ([poll 100] ++ poll 960 :: [poll 1000; poll 1000])
     = go ([poll 100] ++ [poll 960]).
Proof.
  intros go. split; [reflexivity|]. split; [by vm_compute|].
  apply (monitor_stops_at_95_percent "tiny" 1000 (initial_state 1700000000) 1700000000
           [poll 100] [poll 1000; poll 1000] (poll 960) 960);
    [reflexivity|by vm_compute].
Defined.

(** X11 at work: [tiny] is loaded into a cache that holds [base], then
    [small] is loaded, which evicts [base]. *)
Lemma tiny_survives_the_eviction :
  let cache := fst (load_model "tiny" (inl 2%nat) (acquire_all [("base", inl 1%nat)] [])) in
  let after := fst (load_model "small" (inl 3%nat) cache) in
  dict_contains (acquire_all [("base", inl 1%nat)] []) "tiny" = false
  /\ after = [("tiny", 2%nat); ("small", 3%nat)]
  /\ dict_get after "tiny" = Some 2%nat.
Proof.
  intros cache after. split; [reflexivity|]. split; [reflexivity|].
  apply (loaded_model_survives_one_call [("base", inl 1%nat)] "tiny" "small" 2%nat
           (inl 3%nat)).
  reflexivity.
Defined.

(** X14 at work. *)
Lemma delete_of_a_present_model :
  let env := example_env (inl 7%nat) [] in
  let w := example_world [("/home/user/.cache/whisper/tiny.pt", 77%N);
                          ("/home/user/.cache/whisper/base.pt", 99%N)] in
  let w' := fst (delete_model env "tiny" w) in
  model_file_of env "tiny" = Some "/home/user/.cache/whisper/tiny.pt"%string
  /\ fs w' !! "/home/user/.cache/whisper/tiny.pt" = None
  /\ fs w' !! "/home/user/.cache/whisper/base.pt" = Some 99%N
  /\ check_model_status env "tiny" w'
     = (w', inl [("model", PStr "tiny"); ("downloaded", PBool false);
                 ("success", PBool true)]).
Proof.
  intros env w w'. split; [reflexivity|].
  destruct (delete_model_then_check env "tiny" "/home/user/.cache/whisper/tiny.pt" 77 w
              eq_refl eq_refl eq_refl) as (Hgone & Hrest & Hcheck & _).
  split; [exact Hgone|]. split; [|exact Hcheck].
  unfold w'. rewrite Hrest; [reflexivity|discriminate].
Defined.

(** X15 at work: the second call is made without a network. *)
Lemma second_download_does_nothing :
  let env := example_env (inl 7%nat) [poll 100; poll 500] in
  let again := example_env (inr (OtherError "no network")) [] in
  let w := example_world [] in
  let w' := fst (download_model env "tiny" w) in
  fs w !! "/home/user/.cache/whisper/tiny.pt" = None
  /\ download_model again "tiny" w'
     = (w', inl (downloaded_result "tiny" "/home/user/.cache/whisper/tiny.pt" 1000)).
Proof.
  intros env again w w'. split; [reflexivity|].
  exact (proj1 (proj2 (download_model_twice env again "tiny"
                         "/home/user/.cache/whisper/tiny.pt" 7%nat 1000 w
                         eq_refl eq_refl eq_refl eq_refl eq_refl))).
Defined.

(** X16 at work: the loader returns and leaves no file. *)
Lemma download_that_leaves_no_file :
  let env := with_file_after (example_env (inl 7%nat) [poll 100]) None in
  let w := example_world [] in
  model_file_after env = None
  /\ snd (download_model env "tiny" w)
     = inl (downloaded_result "tiny" "/home/user/.cache/whisper/tiny.pt" 0)
  /\ last (log (fst (download_model env "tiny" w)))
     = Some (Stderr (Complete "tiny" 0 1000 100)).
Proof.
  intros env w. split; [reflexivity|].
  destruct (download_model_without_file env "tiny" "/home/user/.cache/whisper/tiny.pt"
              7%nat w eq_refl eq_refl eq_refl eq_refl) as (Hres & _ & _).
  split; [exact Hres|reflexivity].
Defined.

(** X17 at work. *)
Lemma status_of_an_unknown_model :
  let env := example_env (inl 7%nat) [] in
  let w := example_world [] in
  dict_get (whisper_MODELS env) "huge" = None
  /\ check_model_status env "huge" w
     = (w, inl [("model", PStr "huge"); ("error", PStr "'huge'");
                ("success", PBool false)]).
Proof.
  intros env w. split; [reflexivity|].
  exact (proj1 (unknown_identifier env "huge" w eq_refl)).
Defined.




(** X22 at work. *)
Lemma ffmpeg_on_the_PATH :
  let env := example_env (inl 7%nat) [] in
  let w := example_world [] in
  ffmpeg_path env <> Some ""%string
  /\ ordinary (subprocess_run env)
  /\ exists result,
       snd (check_ffmpeg env w) = inl result
       /\ dict_get result "available" = dict_get result "success".
Proof.
  intros env w. split; [discriminate|]. split; [exact I|].
  destruct (check_ffmpeg_reports_the_run env w ltac:(discriminate) I)
    as (result & Hrun & Hagree & _).
  exists result. rewrite Hrun. split; [reflexivity|exact Hagree].
Defined.

(** X23 at work: [--mode list]. *)
Lemma list_run_prints_one_line :
  let env := example_env (inl 7%nat) [] in
  let a := {| arg_mode := ModeList; audio_file := None; model := "base";
              language := None; output_format := Json |} in
  let w := example_world [("/home/user/.cache/whisper/tiny.pt", 77%N)] in
  ordinary_environment env
  /\ exists d line,
       log (fst (run env a w)) = (log w ++ d ++ [line])%list
       /\ forallb (fun e => negb (is_print e)) d = true
       /\ ((exists result, line = Stdout (PDict result) /\ has_success_flag result)
           \/ (arg_mode a = ModeTranscribe /\ output_format a = Text
               /\ ((exists text, line = Stdout (PStr text) /\ snd (run env a w) = 0%Z)
                   \/ (exists msg, line = StderrText msg /\ snd (run env a w) = 1%Z)))).
Proof.
  intros env a w.
  assert (Hord : ordinary_environment env) by (repeat split).
  split; [exact Hord|]. exact (run_prints_one_line env a w Hord).
Defined.
